(** * OmFileReader: the reader facade over the native codec

    A shallow embedding of [OmFileReader.ts] (the class [OmFileReader]),
    of the constants of [wasm.ts], of the C wrappers around
    [om_variable_get_dimensions] / [om_variable_get_chunks], and of the
    two interfaces the class is written against: [WasmModule] (the native
    codec compiled to WebAssembly) and [OmFileReaderBackend] (the
    byte-range source).

    Conventions.
    - A JavaScript [number] that holds an offset, a size, an index or an
      enum tag is a [Z]; 64-bit values read with [getValue(p, "i64")] and
      converted with [Number] are the same [Z].
    - A pointer into the module's linear memory is represented by the
      contents of the block it addresses; out-parameters are returned.
    - A typed array is its constructor together with the bytes of its
      buffer, so that no floating-point value has to be interpreted.
    - [async] methods are computations in a state-and-exception monad whose
      state holds [this], the typed array the call writes to, and the log
      of backend requests issued so far.
    - The two [while] loops of [decode] and the recursion of
      [collectVariableMetadata] are driven by the native codec and by the
      file; they take a fuel argument and report [OutOfFuel] when it is
      exhausted.
    - What the class asks of the JavaScript engine itself -- decoding a
      name with [TextDecoder], allocating a typed array -- is the
      interface [JsEngine]; a string is held in UTF-8. *)

From Stdlib Require Import ZArith String List Lia.
From stdpp Require Import base list strings pretty gmap.

Local Open Scope Z_scope.

(** ** Plain data ([types.ts]) *)

Definition bytes := list Byte.byte.

Record Range := mkRange { start : Z; end_ : Z }.

Record OffsetSize := mkOffsetSize { offset : Z; size : Z }.

Definition DATA_TYPE_INT8 : Z := 1.
Definition DATA_TYPE_UINT8 : Z := 2.
Definition DATA_TYPE_INT16 : Z := 3.
Definition DATA_TYPE_UINT16 : Z := 4.
Definition DATA_TYPE_INT32 : Z := 5.
Definition DATA_TYPE_UINT32 : Z := 6.
Definition DATA_TYPE_INT64 : Z := 7.
Definition DATA_TYPE_UINT64 : Z := 8.
Definition DATA_TYPE_FLOAT : Z := 9.
Definition DATA_TYPE_DOUBLE : Z := 10.
Definition DATA_TYPE_STRING : Z := 11.
Definition DATA_TYPE_INT8_ARRAY : Z := 12.
Definition DATA_TYPE_UINT8_ARRAY : Z := 13.
Definition DATA_TYPE_INT16_ARRAY : Z := 14.
Definition DATA_TYPE_UINT16_ARRAY : Z := 15.
Definition DATA_TYPE_INT32_ARRAY : Z := 16.
Definition DATA_TYPE_UINT32_ARRAY : Z := 17.
Definition DATA_TYPE_INT64_ARRAY : Z := 18.
Definition DATA_TYPE_UINT64_ARRAY : Z := 19.
Definition DATA_TYPE_FLOAT_ARRAY : Z := 20.
Definition DATA_TYPE_DOUBLE_ARRAY : Z := 21.
Definition DATA_TYPE_STRING_ARRAY : Z := 22.

(** [HEADER_TYPES] and [ERROR_CODES] of [wasm.ts]. *)
Definition OM_HEADER_INVALID : Z := 0.
Definition OM_HEADER_LEGACY : Z := 1.
Definition OM_HEADER_READ_TRAILER : Z := 2.
Definition ERROR_OK : Z := 0.

(** ** Typed arrays *)

Inductive ArrayCtor :=
| Int8Array | Uint8Array | Int16Array | Uint16Array
| Int32Array | Uint32Array | Float32Array | Float64Array.

Definition BYTES_PER_ELEMENT (c : ArrayCtor) : nat :=
  match c with
  | Int8Array | Uint8Array => 1
  | Int16Array | Uint16Array => 2
  | Int32Array | Uint32Array | Float32Array => 4
  | Float64Array => 8
  end%nat.

Record TypedArray := mkTypedArray { ctor : ArrayCtor; buffer : bytes }.

Definition byteLength (a : TypedArray) : nat := length (buffer a).

Definition ta_length (a : TypedArray) : nat :=
  (byteLength a / BYTES_PER_ELEMENT (ctor a))%nat.

(** [new C(n)] for a non-negative [n]: [n] zero-filled elements. *)
Definition new_array (c : ArrayCtor) (n : nat) : TypedArray :=
  mkTypedArray c (replicate (n * BYTES_PER_ELEMENT c) Byte.x00).

(** ** Errors

    One constructor per [throw] site of [OmFileReader.ts]; the arguments
    are the values interpolated into the message. [BackendError] is a
    rejected backend promise, [RangeError] the one raised by a typed-array
    constructor given a negative length or a length it cannot allocate. *)

Inductive Error :=
| ReaderNotInitialized                        (* "Reader not initialized" *)
| NotAValidOmFile                             (* "Not a valid OM file" *)
| FailedToReadTrailer                         (* "Failed to read trailer" *)
| UnknownHeaderType                           (* "Unknown header type" *)
| InvalidDataType (expected got : Z)          (* "Invalid data type: expected .., got .." *)
| UnsupportedDataType                         (* "Unsupported data type" *)
| MismatchedDimensions (file request : nat)   (* "Mismatched dimensions: file has .., request has .." *)
| OutputTooSmall (needs : Z) (has : nat)      (* "Output array is too small: needs .. elements, has .." *)
| InvalidRange (i : nat) (r : Range)          (* "Invalid range for dimension i: .." *)
| DecoderInitFailed (code : Z)                (* "Decoder initialization failed: error code .." *)
| DecodeChunksFailed (code : Z)               (* "Decoder failed to decode chunks: error .." *)
| DataReadError (code : Z)                    (* "Data read error: .." *)
| BackendError (msg : string)
| RangeError.

(** The error kinds of the design document, and the kind each thrown
    error belongs to. [Unlisted] collects the errors the taxonomy has no
    name for. *)
Inductive ErrorKind :=
| InvalidFormat | InvalidTrailer | NotInitialized | DimensionMismatch
| RangeOutOfBounds | BufferTooSmall | IndexOutOfRange | DecodeError
| IOError | Unlisted.

Definition kind (e : Error) : ErrorKind :=
  match e with
  | ReaderNotInitialized => NotInitialized
  | NotAValidOmFile | UnknownHeaderType => InvalidFormat
  | FailedToReadTrailer => InvalidTrailer
  | MismatchedDimensions _ _ => DimensionMismatch
  | OutputTooSmall _ _ => BufferTooSmall
  | InvalidRange _ _ => RangeOutOfBounds
  | DecoderInitFailed _ | DecodeChunksFailed _ | DataReadError _ => DecodeError
  | BackendError _ => IOError
  | InvalidDataType _ _ | UnsupportedDataType | RangeError => Unlisted
  end.

(** ** The backend interface ([OmFileReaderBackend.ts]) *)

Inductive Fetched (A : Type) :=
| Resolved (a : A)
| Rejected (msg : string).
Arguments Resolved {A} a.
Arguments Rejected {A} msg.

Record OmFileReaderBackend := mkBackend {
  getBytes : Z -> Z -> Fetched bytes;
  count : Fetched Z
}.

Inductive BackendCall :=
| GetBytes (offset size : Z)
| Count.

(** ** The native codec interface ([WasmModule] of [wasm.ts]) *)

Record OmRange := mkOmRange { lowerBound : Z; upperBound : Z }.

(** [OmDecoder_indexRead_t] as [newIndexRead] lays it out:
    offset, count, then three ranges. *)
Record OmDecoder_indexRead := mkIndexRead {
  ir_offset : Z;
  ir_count : Z;
  ir_indexRange : OmRange;
  ir_chunkIndex : OmRange;
  ir_nextChunk : OmRange
}.

(** [OmDecoder_dataRead_t]: offset(8), count(8), indexRange(16), then
    chunkIndex at byte 32, then nextChunk. *)
Record OmDecoder_dataRead := mkDataRead {
  dr_offset : Z;
  dr_count : Z;
  dr_indexRange : OmRange;
  dr_chunkIndex : OmRange;
  dr_nextChunk : OmRange
}.

Record WasmModule := mkWasm {
  OmVariable : Type;
  OmDecoder : Type;
  (* contents of a block as [_malloc] hands it out *)
  _malloc : Z -> bytes;
  om_header_size : Z;
  om_header_type : bytes -> Z;
  om_trailer_size : Z;
  (* [Some (offset, size)] when the call returns true *)
  om_trailer_read : bytes -> option (Z * Z);
  om_variable_init : bytes -> OmVariable;
  om_variable_get_type : OmVariable -> Z;
  om_variable_get_compression : OmVariable -> Z;
  (* IEEE-754 bit patterns *)
  om_variable_get_scale_factor : OmVariable -> Z;
  om_variable_get_add_offset : OmVariable -> Z;
  (* [OmDimensions_t]: [values] of length [count] *)
  om_variable_get_dimensions : OmVariable -> list Z;
  om_variable_get_chunks : OmVariable -> list Z;
  (* [OmString_t]: [value] of length [size] *)
  om_variable_get_name : OmVariable -> string;
  om_variable_get_children_count : OmVariable -> Z;
  (* called with one-element out-arrays: [Some (offset, size)] when the
     call returns true *)
  om_variable_get_children : OmVariable -> Z -> Z -> option (Z * Z);
  (* error code, and the bytes at [*value], [None] for a null pointer *)
  om_variable_get_scalar : OmVariable -> Z * option bytes;
  om_decoder_init :
    OmVariable -> Z -> list Z -> list Z -> list Z -> list Z -> Z -> Z ->
    Z * OmDecoder;
  om_decoder_init_index_read :
    OmDecoder -> OmDecoder_indexRead -> OmDecoder_indexRead;
  om_decoder_init_data_read :
    OmDecoder_dataRead -> OmDecoder_indexRead -> OmDecoder_dataRead;
  om_decoder_read_buffer_size : OmDecoder -> Z;
  om_decoder_next_index_read :
    OmDecoder -> OmDecoder_indexRead -> bool * OmDecoder_indexRead;
  (* decoder, dataRead, indexData, indexCount, *error *)
  om_decoder_next_data_read :
    OmDecoder -> OmDecoder_dataRead -> bytes -> Z -> Z ->
    bool * OmDecoder_dataRead * Z;
  (* decoder, chunkIndex, data, count, output, chunkBuffer, *error *)
  om_decoder_decode_chunks :
    OmDecoder -> OmRange -> bytes -> Z -> bytes -> bytes -> Z ->
    bool * bytes * bytes * Z
}.

(** ** The C wrappers over [OmDimensions_t] *)

Section Wrappers.
Context (wasm : WasmModule).

Definition om_variable_get_dimension_count (variable : OmVariable wasm) : Z :=
  let dims := om_variable_get_dimensions wasm variable in
  Z.of_nat (length dims).

Definition om_variable_get_dimension_value
    (variable : OmVariable wasm) (index : Z) : Z :=
  let dims := om_variable_get_dimensions wasm variable in
  if index >=? Z.of_nat (length dims) then 0
  else nth (Z.to_nat index) dims 0.

Definition om_variable_get_chunk_count (variable : OmVariable wasm) : Z :=
  let chunks := om_variable_get_chunks wasm variable in
  Z.of_nat (length chunks).

Definition om_variable_get_chunk_value
    (variable : OmVariable wasm) (index : Z) : Z :=
  let chunks := om_variable_get_chunks wasm variable in
  if index >=? Z.of_nat (length chunks) then 0
  else nth (Z.to_nat index) chunks 0.
End Wrappers.

(** ** The JavaScript engine

    The two services of the platform the class relies on. [TextDecoder]
    turns the bytes of a name into a string, ill-formed UTF-8 included.
    A typed-array constructor given a positive length either hands out
    the array or throws a [RangeError]: the length is beyond the engine's
    limit, or the memory is not there. *)

Record JsEngine := mkJsEngine {
  (* [new TextDecoder("utf8").decode(bytes)] *)
  TextDecoder_decode : string -> string;
  (* whether [new C(n)] is granted its [n > 0] elements *)
  allocates : ArrayCtor -> Z -> bool
}.

(** ** Plain objects used as records

    [Record<string, OffsetSize>] is a plain object. Its own properties
    are a map; an assignment to the key ["__proto__"] adds no property:
    it runs the setter inherited from [Object.prototype], which makes the
    assigned object the prototype. *)

Record JsRecord := mkJsRecord {
  own : gmap string OffsetSize;
  proto : option OffsetSize
}.

(** [{}] *)
Definition empty_record : JsRecord := mkJsRecord ∅ None.

(** [result[key] = value] *)
Definition assign (key : string) (value : OffsetSize) (result : JsRecord)
    : JsRecord :=
  if String.eqb key "__proto__" then mkJsRecord (own result) (Some value)
  else mkJsRecord (<[key := value]> (own result)) (proto result).

(** ** The monad of the asynchronous methods *)

Inductive Outcome (A : Type) :=
| Returned (a : A)
| Thrown (e : Error)
| OutOfFuel.
Arguments Returned {A} a.
Arguments Thrown {A} e.
Arguments OutOfFuel {A}.

Module Reader.
Section WithModule.
Context (wasm : WasmModule) (backend : OmFileReaderBackend) (js : JsEngine).

(** The private fields of the class; [backend] and [wasm] never change
    and are shared by a reader and its children. *)
Record OmFileReader := mkReader {
  variable : option (OmVariable wasm);
  variableData : option bytes;
  variableDataPtr : option bytes;
  offsetSize : option OffsetSize
}.

(** [this], the typed array held by the [output] parameter of
    [read] / [readInto] / [decode], and the backend requests so far,
    oldest first. *)
Record World := mkWorld {
  this : OmFileReader;
  output : TypedArray;
  calls : list BackendCall
}.

Definition M (A : Type) : Type := World -> Outcome A * World.

Definition ret {A} (a : A) : M A := fun w => (Returned a, w).

Definition throw {A} (e : Error) : M A := fun w => (Thrown e, w).

Definition out_of_fuel {A} : M A := fun w => (OutOfFuel, w).

Definition bind {A B} (m : M A) (k : A -> M B) : M B :=
  fun w =>
    match m w with
    | (Returned a, w') => k a w'
    | (Thrown e, w') => (Thrown e, w')
    | (OutOfFuel, w') => (OutOfFuel, w')
    end.

Notation "x <- m ;; k" := (bind m (fun x => k))
  (at level 100, m at next level, right associativity).
Notation "m ;;; k" := (bind m (fun _ => k))
  (at level 100, right associativity).

Definition get_this : M OmFileReader := fun w => (Returned (this w), w).

Definition set_this (r : OmFileReader) : M unit :=
  fun w => (Returned tt, mkWorld r (output w) (calls w)).

Definition get_output : M TypedArray := fun w => (Returned (output w), w).

(** The world in which the output array is [a]. *)
Definition with_output (a : TypedArray) (w : World) : World :=
  mkWorld (this w) a (calls w).

Definition set_output (a : TypedArray) : M unit :=
  fun w => (Returned tt, with_output a w).

(** A method call on another reader object: [m] runs with [this] bound
    to [r]; the caller's [this] is back in place afterwards. *)
Definition on {A} (r : OmFileReader) (m : M A) : M A :=
  fun w =>
    let '(o, w') := m (mkWorld r (output w) (calls w)) in
    (o, mkWorld (this w) (output w') (calls w')).

Definition log (c : BackendCall) (w : World) : World :=
  mkWorld (this w) (output w) (calls w ++ [c]).

(** [await this.backend.getBytes(offset, size)] *)
Definition await_getBytes (offset size : Z) : M bytes :=
  fun w =>
    match getBytes backend offset size with
    | Resolved b => (Returned b, log (GetBytes offset size) w)
    | Rejected msg => (Thrown (BackendError msg), log (GetBytes offset size) w)
    end.

(** [await this.backend.count()] *)
Definition await_count : M Z :=
  fun w =>
    match count backend with
    | Resolved n => (Returned n, log Count w)
    | Rejected msg => (Thrown (BackendError msg), log Count w)
    end.

(** The constructor. *)
Definition new_reader : OmFileReader := mkReader None None None None.

(** [if (this.variable === null) throw new Error("Reader not initialized")] *)
Definition require_variable : M (OmVariable wasm) :=
  r <- get_this ;;
  match variable r with
  | None => throw ReaderNotInitialized
  | Some v => ret v
  end.

(** *** [initialize] *)
Definition initialize : M unit :=
  let headerSize := om_header_size wasm in
  headerData <- await_getBytes 0 headerSize ;;
  let headerType := om_header_type wasm headerData in
  if headerType =? OM_HEADER_INVALID then throw NotAValidOmFile
  else
    variableData <-
      (if headerType =? OM_HEADER_LEGACY then
         r <- get_this ;;
         set_this (mkReader (variable r) (variableData r)
                            (variableDataPtr r) None) ;;;
         ret headerData
       else if headerType =? OM_HEADER_READ_TRAILER then
         fileSize <- await_count ;;
         let trailerSize := om_trailer_size wasm in
         let trailerOffset := fileSize - trailerSize in
         trailerData <- await_getBytes trailerOffset trailerSize ;;
         match om_trailer_read wasm trailerData with
         | None => throw FailedToReadTrailer
         | Some (offset, size) =>
             r <- get_this ;;
             set_this (mkReader (variable r) (variableData r)
                                (variableDataPtr r)
                                (Some (mkOffsetSize offset size))) ;;;
             await_getBytes offset size
         end
       else throw UnknownHeaderType) ;;
    r <- get_this ;;
    set_this (mkReader (Some (om_variable_init wasm variableData))
                       (Some variableData) (Some variableData)
                       (offsetSize r)).

(** *** Metadata accessors *)
Definition dataType : M Z :=
  v <- require_variable ;; ret (om_variable_get_type wasm v).




Definition getDimensions : M (list Z) :=
  v <- require_variable ;;
  let count := om_variable_get_dimension_count wasm v in
  ret (map (fun i => om_variable_get_dimension_value wasm v (Z.of_nat i))
           (seq 0 (Z.to_nat count))).

Definition getChunkDimensions : M (list Z) :=
  v <- require_variable ;;
  let count := om_variable_get_chunk_count wasm v in
  ret (map (fun i => om_variable_get_chunk_value wasm v (Z.of_nat i))
           (seq 0 (Z.to_nat count))).

(** [null] for a name of size zero; otherwise the bytes the codec
    points at, decoded by [_getString]. *)
Definition getName : M (option string) :=
  v <- require_variable ;;
  let name := om_variable_get_name wasm v in
  if (String.length name =? 0)%nat then ret None
  else ret (Some (TextDecoder_decode js name)).

Definition numberOfChildren : M Z :=
  v <- require_variable ;; ret (om_variable_get_children_count wasm v).

(** *** Children *)
Definition initChildFromOffsetSize (os : OffsetSize) : M OmFileReader :=
  childData <- await_getBytes (offset os) (size os) ;;
  ret (mkReader (Some (om_variable_init wasm childData))
                (Some childData) (Some childData) (Some os)).

Definition getChild (index : Z) : M (option OmFileReader) :=
  v <- require_variable ;;
  match om_variable_get_children wasm v index 1 with
  | None => ret None
  | Some (offset, size) =>
      child <- initChildFromOffsetSize (mkOffsetSize offset size) ;;
      ret (Some child)
  end.


(** *** [readScalar] *)

(** [getValue(ptr, "i8" | "i16" | "i32")]: the little-endian signed
    integer held by the first [n] bytes of the block. *)
Fixpoint unsigned_le (n : nat) (b : bytes) : Z :=
  match n with
  | O => 0
  | S n' =>
      match b with
      | [] => 0
      | x :: b' => Z.of_N (Byte.to_N x) + 256 * unsigned_le n' b'
      end
  end.

Definition getValue_int (n : nat) (b : bytes) : Z :=
  let u := unsigned_le n b in
  let m := 2 ^ (8 * Z.of_nat n) in
  if u <? m / 2 then u else u - m.

(** The value handed back to the caller: an integer, or the bit
    pattern of a float or of a double. *)
Inductive Scalar :=
| SInt (z : Z)
| SFloat (bits : Z)
| SDouble (bits : Z).

Definition scalar_of (dataType : Z) (data : bytes) : option Scalar :=
  if dataType =? DATA_TYPE_INT8 then Some (SInt (getValue_int 1 data))
  else if dataType =? DATA_TYPE_UINT8 then
    Some (SInt (Z.land (getValue_int 1 data) 255))
  else if dataType =? DATA_TYPE_INT16 then Some (SInt (getValue_int 2 data))
  else if dataType =? DATA_TYPE_UINT16 then
    Some (SInt (Z.land (getValue_int 2 data) 65535))
  else if dataType =? DATA_TYPE_INT32 then Some (SInt (getValue_int 4 data))
  else if dataType =? DATA_TYPE_UINT32 then
    Some (SInt (getValue_int 4 data mod 2 ^ 32))
  else if dataType =? DATA_TYPE_FLOAT then Some (SFloat (unsigned_le 4 data))
  else if dataType =? DATA_TYPE_DOUBLE then Some (SDouble (unsigned_le 8 data))
  else None.

Definition readScalar (dataType_ : Z) : M (option Scalar) :=
  v <- require_variable ;;
  actual <- dataType ;;
  if negb (actual =? dataType_) then ret None
  else
    let '(error, data) := om_variable_get_scalar wasm v in
    if negb (error =? ERROR_OK) then ret None
    else
      match data with
      | None => ret None
      | Some d => ret (scalar_of dataType_ d)
      end.

(** *** [decode] *)

Definition zeroRange : OmRange := mkOmRange 0 0.

Definition newIndexRead (decoder : OmDecoder wasm) : OmDecoder_indexRead :=
  om_decoder_init_index_read wasm decoder
    (mkIndexRead 0 0 zeroRange zeroRange zeroRange).

Definition newDataRead (indexRead : OmDecoder_indexRead) : OmDecoder_dataRead :=
  om_decoder_init_data_read wasm
    (mkDataRead 0 0 zeroRange zeroRange zeroRange) indexRead.

(** The blocks [decode] allocates and the decoder writes:
    [outputPtr], [chunkBufferPtr] and [errorPtr]. *)
Record Scratch := mkScratch {
  outputMem : bytes;
  chunkBuffer : bytes;
  errorCell : Z
}.

(** The inner [while]: data blocks of one index block. *)
Fixpoint data_read_loop (fuel : nat) (decoder : OmDecoder wasm)
    (dataRead : OmDecoder_dataRead) (indexData : bytes) (indexCount : Z)
    (s : Scratch) : M Scratch :=
  match fuel with
  | O => out_of_fuel
  | S fuel' =>
      let '(more, dataRead', error') :=
        om_decoder_next_data_read wasm decoder dataRead indexData
                                  indexCount (errorCell s) in
      if more then
        let dataOffset := dr_offset dataRead' in
        let dataCount := dr_count dataRead' in
        let chunkIndex := dr_chunkIndex dataRead' in
        dataBlock <- await_getBytes dataOffset dataCount ;;
        let '(success, out', cb', error'') :=
          om_decoder_decode_chunks wasm decoder chunkIndex dataBlock
            dataCount (outputMem s) (chunkBuffer s) error' in
        if success then
          data_read_loop fuel' decoder dataRead' indexData indexCount
                         (mkScratch out' cb' error'')
        else throw (DecodeChunksFailed error'')
      else if negb (error' =? ERROR_OK) then throw (DataReadError error')
      else ret (mkScratch (outputMem s) (chunkBuffer s) error')
  end.

(** The outer [while]: index blocks. *)
Fixpoint index_read_loop (fuel : nat) (decoder : OmDecoder wasm)
    (indexRead : OmDecoder_indexRead) (s : Scratch) : M Scratch :=
  match fuel with
  | O => out_of_fuel
  | S fuel' =>
      let '(more, indexRead') :=
        om_decoder_next_index_read wasm decoder indexRead in
      if more then
        let indexOffset := ir_offset indexRead' in
        let indexCount := ir_count indexRead' in
        indexData <- await_getBytes indexOffset indexCount ;;
        let dataRead := newDataRead indexRead' in
        s' <- data_read_loop fuel' decoder dataRead indexData indexCount s ;;
        index_read_loop fuel' decoder indexRead' s'
      else ret s
  end.

(** A view of [targetArray.length] elements over the block at
    [sourcePtr], copied into [targetArray]. *)
Definition copyToTypedArray (source : bytes) : M unit :=
  target <- get_output ;;
  let n := (ta_length target * BYTES_PER_ELEMENT (ctor target))%nat in
  set_output (mkTypedArray (ctor target)
                (resize n Byte.x00 source ++ drop n (buffer target))).

Definition decode (fuel : nat) (decoder : OmDecoder wasm) : M unit :=
  outputArray <- get_output ;;
  let outputMem0 := _malloc wasm (Z.of_nat (byteLength outputArray)) in
  let chunkBufferSize := om_decoder_read_buffer_size wasm decoder in
  let chunkBuffer0 := _malloc wasm chunkBufferSize in
  let indexRead := newIndexRead decoder in
  s <- index_read_loop fuel decoder indexRead
         (mkScratch outputMem0 chunkBuffer0 ERROR_OK) ;;
  copyToTypedArray (outputMem s).

(** *** [readInto] and [read] *)

(** The range check of the fill loop: the first dimension, counted from
    [i], whose range is rejected. *)
Definition invalid_range (r : Range) (fileDim : Z) : bool :=
  (start r <? 0) || (end_ r >? fileDim) || (start r >=? end_ r).

Fixpoint first_invalid_range (i : nat) (dimRanges : list Range)
    (fileDims : list Z) : option (nat * Range) :=
  match dimRanges, fileDims with
  | r :: rs, d :: ds =>
      if invalid_range r d then Some (i, r)
      else first_invalid_range (S i) rs ds
  | _, _ => None
  end.

Definition outDims (dimRanges : list Range) : list Z :=
  map (fun range => end_ range - start range) dimRanges.

(** [outDims.reduce((a, b) => a * b, 1)] *)
Definition totalElements (dimRanges : list Range) : Z :=
  fold_left Z.mul (outDims dimRanges) 1.

Definition readInto (fuel : nat) (dataType_ : Z) (dimRanges : list Range)
    (ioSizeMax ioSizeMerge : Z) : M unit :=
  v <- require_variable ;;
  actual <- dataType ;;
  if negb (actual =? dataType_) then throw (InvalidDataType actual dataType_)
  else
    let nDims := length dimRanges in
    fileDims <- getDimensions ;;
    if negb (length fileDims =? nDims)%nat then
      throw (MismatchedDimensions (length fileDims) nDims)
    else
      let intoCubeOffset := replicate nDims 0 in
      output_ <- get_output ;;
      if Z.of_nat (ta_length output_) <? totalElements dimRanges then
        throw (OutputTooSmall (totalElements dimRanges) (ta_length output_))
      else
        match first_invalid_range 0 dimRanges fileDims with
        | Some (i, r) => throw (InvalidRange i r)
        | None =>
            let readOffset := map start dimRanges in
            let readCount := outDims dimRanges in
            let intoCubeDimension := outDims dimRanges in
            let '(error, decoder) :=
              om_decoder_init wasm v (Z.of_nat nDims) readOffset readCount
                intoCubeOffset intoCubeDimension ioSizeMerge ioSizeMax in
            if negb (error =? ERROR_OK) then throw (DecoderInitFailed error)
            else decode fuel decoder
        end.

(** The [switch] of [read] that picks the output constructor. *)
Definition output_ctor (dataType_ : Z) : option ArrayCtor :=
  if dataType_ =? DATA_TYPE_INT8_ARRAY then Some Int8Array
  else if dataType_ =? DATA_TYPE_UINT8_ARRAY then Some Uint8Array
  else if dataType_ =? DATA_TYPE_INT16_ARRAY then Some Int16Array
  else if dataType_ =? DATA_TYPE_UINT16_ARRAY then Some Uint16Array
  else if dataType_ =? DATA_TYPE_INT32_ARRAY then Some Int32Array
  else if dataType_ =? DATA_TYPE_UINT32_ARRAY then Some Uint32Array
  else if dataType_ =? DATA_TYPE_FLOAT_ARRAY then Some Float32Array
  else if dataType_ =? DATA_TYPE_DOUBLE_ARRAY then Some Float64Array
  else None.

(** Whether [new C(n)] hands out an array: never for a negative
    length, always for the length zero, and for a positive length when
    the engine grants it. *)
Definition granted (c : ArrayCtor) (n : Z) : bool :=
  (0 <=? n) && ((n =? 0) || allocates js c n).

(** [output = new C(n)] *)
Definition new_typed_array (c : ArrayCtor) (n : Z) : M unit :=
  if granted c n then set_output (new_array c (Z.to_nat n))
  else throw RangeError.

Definition read (fuel : nat) (dataType_ : Z) (dimRanges : list Range)
    (ioSizeMax ioSizeMerge : Z) : M TypedArray :=
  v <- require_variable ;;
  actual <- dataType ;;
  if negb (actual =? dataType_) then throw (InvalidDataType actual dataType_)
  else
    let totalSize := totalElements dimRanges in
    match output_ctor dataType_ with
    | None => throw UnsupportedDataType
    | Some c =>
        new_typed_array c totalSize ;;;
        readInto fuel dataType_ dimRanges ioSizeMax ioSizeMerge ;;;
        get_output
    end.

(** *** [getFlatVariableMetadata] *)

(** [for (const x of l) acc = await body(x, acc)] *)
Fixpoint for_each {A S : Type} (l : list A) (body : A -> S -> M S)
    (acc : S) : M S :=
  match l with
  | [] => ret acc
  | x :: l' => acc' <- body x acc ;; for_each l' body acc'
  end.

Definition pathStr (pathWithName : list string) : string :=
  String.concat "/" pathWithName.

Fixpoint collectVariableMetadata (fuel : nat) (currentPath : list string)
    (result : JsRecord) : M JsRecord :=
  match fuel with
  | O => out_of_fuel
  | S fuel' =>
      name <- getName ;;
      r <- get_this ;;
      let result1 :=
        match name, offsetSize r with
        | Some n, Some os => assign (pathStr (currentPath ++ [n])) os result
        | _, _ => result
        end in
      numChildren <- numberOfChildren ;;
      for_each (seq 0 (Z.to_nat numChildren))
        (fun i acc =>
           child <- getChild (Z.of_nat i) ;;
           match child with
           | Some c =>
               let childPath :=
                 match name with
                 | Some n => currentPath ++ [n]
                 | None => currentPath
                 end in
               on c (collectVariableMetadata fuel' childPath acc)
           | None => ret acc
           end)
        result1
  end.

Definition getFlatVariableMetadata (fuel : nat) : M JsRecord :=
  collectVariableMetadata fuel [] empty_record.

(** *** Statements about outcomes *)

(** [m] throws [e] and leaves the world as it found it: no backend
    request, no write to the output array, no change to [this]. *)
Definition fails_with {A} (m : M A) (e : Error) (w : World) : Prop :=
  m w = (Thrown e, w).


(** Every range lies within its dimension: [0 <= start <= end <= extent]. *)
Definition within (dimRanges : list Range) (fileDims : list Z) : Prop :=
  Forall2 (fun r d => 0 <= start r /\ start r <= end_ r /\ end_ r <= d)
          dimRanges fileDims.

End WithModule.

Arguments mkReader {wasm} _ _ _ _.
Arguments variable {wasm} _.
Arguments variableData {wasm} _.
Arguments variableDataPtr {wasm} _.
Arguments offsetSize {wasm} _.
Arguments mkWorld {wasm} _ _ _.
Arguments this {wasm} _.
Arguments output {wasm} _.
Arguments calls {wasm} _.
Arguments new_reader {wasm}.

(** *** The tree walk as the design document words it

  The metadata tree as a value; the "path -> location" entries of a
  depth-first walk over it (a key "parent/child/.../name" for a node
  that has both a name and a location, nothing for another node, whose
  children are walked all the same); the backend requests of the walk;
  and the tree a file holds, read off the codec's child tables and the
  bytes of the backend without running the reader. *)

Local Unset Elimination Schemes.
Inductive Tree :=
| Node (name : option string) (location : option OffsetSize)
     (children : list Tree).
Local Set Elimination Schemes.

Fixpoint flat_entries (path : list string) (t : Tree)
  : list (string * OffsetSize) :=
match t with
| Node name location children =>
    let here :=
      match name, location with
      | Some n, Some os => [(pathStr (path ++ [n]), os)]
      | _, _ => []
      end in
    let below :=
      match name with
      | Some n => path ++ [n]
      | None => path
      end in
    here ++ flat_map (flat_entries below) children
end.

(** The entries written into a record one after the other. *)
Definition record_all (entries : list (string * OffsetSize))
  (result : JsRecord) : JsRecord :=
fold_left (fun acc e => assign (fst e) (snd e) acc) entries result.

(** The location of the last of the entries under a key. *)
Definition last_entry (key : string) (entries : list (string * OffsetSize))
  : option OffsetSize :=
snd <$> last (filter (fun e => fst e = key) entries).

(** The backend requests of a walk over a tree: every node below the
    root is fetched from its location, a node before its own children
    and the children in index order. *)
Fixpoint walk_requests (t : Tree) : list BackendCall :=
  match t with
  | Node _ _ children =>
      flat_map
        (fun child =>
           match child with
           | Node _ (Some os) _ => [GetBytes (offset os) (size os)]
           | Node _ None _ => []
           end ++ walk_requests child)
        children
  end.

(** Every node below the root has a location. *)
Fixpoint children_located (t : Tree) : bool :=
  match t with
  | Node _ _ children =>
      forallb
        (fun child =>
           match child with
           | Node _ (Some _) _ => children_located child
           | Node _ None _ => false
           end)
        children
  end.

(** The number of nodes below the root. *)
Fixpoint descendants (t : Tree) : nat :=
  match t with
  | Node _ _ children =>
      fold_right (fun child n => (S (descendants child) + n)%nat) 0%nat
                 children
  end.

Section Directory.
Context (wasm : WasmModule) (backend : OmFileReaderBackend) (js : JsEngine).

(** The subtree under the child index [i] of the variable [v]: none
    where the child table has no location for [i]; otherwise the tree of
    the variable held by the bytes at that location, [None] when the
    backend does not deliver them. *)
Definition child_tree
    (subtree : OmVariable wasm -> option OffsetSize -> option Tree)
    (v : OmVariable wasm) (i : nat) : option (list Tree) :=
  match om_variable_get_children wasm v (Z.of_nat i) 1 with
  | None => Some []
  | Some (o, s) =>
      match getBytes backend o s with
      | Rejected _ => None
      | Resolved data =>
          t ← subtree (om_variable_init wasm data) (Some (mkOffsetSize o s));
          Some [t]
      end
  end.

(** The name of the variable [v] as text; none for a name of size
    zero. *)
Definition node_name (v : OmVariable wasm) : option string :=
  let raw := om_variable_get_name wasm v in
  if (String.length raw =? 0)%nat then None
  else Some (TextDecoder_decode js raw).

(** The tree a file holds at the variable [v] found at [location]: its
    children are those of the indices below the child count, in index
    order. [None] when some location cannot be read, or when the tree
    has more than [depth] levels. *)
Fixpoint file_tree (depth : nat) (v : OmVariable wasm)
    (location : option OffsetSize) : option Tree :=
  match depth with
  | O => None
  | S depth' =>
      let count := Z.to_nat (om_variable_get_children_count wasm v) in
      children ← mapM (child_tree (file_tree depth') v) (seq 0 count);
      Some (Node (node_name v) location (concat children))
  end.

(** The walk over the tree [t] of a file: it returns the record with
    the entries of [t] written into it, after the requests of [t]. Over
    a file whose tree cannot be read, it does not return. *)
Definition walks (fuel : nat) (path : list string) (result : JsRecord)
    (w : World wasm) (tree : option Tree) : Prop :=
  match tree with
  | Some t =>
      collectVariableMetadata wasm backend js fuel path result w
      = (Returned (record_all (flat_entries path t) result),
         mkWorld (this w) (output w) (calls w ++ walk_requests t))
  | None =>
      forall flat w',
        collectVariableMetadata wasm backend js fuel path result w
        <> (Returned flat, w')
  end.
End Directory.
End Reader.

(** ** [FileBackend] over an in-memory buffer

    [getBytes] rejects a range that leaves the buffer ("Invalid range:
    offset=.., size=.., buffer size=..") and slices it otherwise;
    [count] is the buffer's length. *)

Definition FileBackend (data : bytes) : OmFileReaderBackend :=
  let byteLength := Z.of_nat (length data) in
  mkBackend
    (fun offset size =>
       if (offset <? 0) || (offset >? byteLength) || (size <? 0)
          || (offset + size >? byteLength)
       then Rejected "Invalid range"
       else Resolved (take (Z.to_nat size) (drop (Z.to_nat offset) data)))
    (Resolved byteLength).

(** ** A miniature codec

    Modelled from the spec: the native codec behind [WasmModule]
    (header probe, trailer, metadata records, decoder) is a C library that
    is not among the sources. [MiniCodec] follows the record layout of the
    design document (type tag, compression tag, dimension count and
    extents, chunk extents, length-prefixed name, child count and child
    (offset, size) table, scalar payload) with every field one byte wide,
    stores an array uncompressed as a single chunk, and answers a child
    lookup only for an index below the child count. It instantiates the
    interface on concrete files; no theorem about [OmFileReader] depends
    on it. *)
Module MiniCodec.

Definition u8 (b : Byte.byte) : Z := Z.of_N (Byte.to_N b).

Definition B (z : Z) : Byte.byte :=
  match Byte.of_N (Z.to_N z) with Some b => b | None => Byte.x00 end.

Record Var := mkVar {
  v_version : Z;
  v_type : Z;
  v_compression : Z;
  v_dims : list Z;
  v_chunks : list Z;
  v_name : string;
  v_children : list (Z * Z);
  v_scalar : bytes;
  v_lut : Z
}.

Fixpoint pairs (l : list Z) : list (Z * Z) :=
  match l with
  | a :: b :: l' => (a, b) :: pairs l'
  | _ => []
  end.

(** A length byte followed by that many bytes; the rest of the input. *)
Definition prefixed (l : bytes) (scale : nat) : bytes * bytes :=
  match l with
  | [] => ([], [])
  | n :: l' =>
      let k := (Z.to_nat (u8 n) * scale)%nat in (take k l', drop k l')
  end.

Definition parse (data : bytes) : Var :=
  match data with
  | _ :: _ :: ver :: ty :: comp :: rest =>
      let '(shape, rest) := prefixed rest 2 in
      let nd := (length shape / 2)%nat in
      let '(name, rest) := prefixed rest 1 in
      let '(children, rest) := prefixed rest 2 in
      let '(scalar, rest) := prefixed rest 1 in
      mkVar (u8 ver) (u8 ty) (u8 comp)
            (map u8 (take nd shape)) (map u8 (drop nd shape))
            (string_of_list_byte name) (pairs (map u8 children))
            scalar (match rest with l :: _ => u8 l | [] => 0 end)
  | _ => mkVar 0 0 0 [] [] "" [] [] 0
  end.

Definition header_type (header : bytes) : Z :=
  match header with
  | o :: m :: ver :: _ =>
      if (u8 o =? 79) && (u8 m =? 77) then
        if (u8 ver =? 1) || (u8 ver =? 2) then OM_HEADER_LEGACY
        else if u8 ver =? 3 then OM_HEADER_READ_TRAILER
        else OM_HEADER_INVALID
      else OM_HEADER_INVALID
  | _ => OM_HEADER_INVALID
  end.

Definition trailer_read (trailer : bytes) : option (Z * Z) :=
  match trailer with
  | [o; m; ver; off; sz] =>
      if (u8 o =? 79) && (u8 m =? 77) && (u8 ver =? 3)
      then Some (u8 off, u8 sz) else None
  | _ => None
  end.

Definition get_children (v : Var) (index n : Z) : option (Z * Z) :=
  if (0 <=? index) && (index + n <=? Z.of_nat (length (v_children v)))
  then nth_error (v_children v) (Z.to_nat index)
  else None.

(** Error 1: the variable is not a scalar; error 2: no payload. *)
Definition get_scalar (v : Var) : Z * option bytes :=
  if (v_type v <? DATA_TYPE_INT8) || (v_type v >? DATA_TYPE_STRING)
  then (1, None)
  else match v_scalar v with
       | [] => (2, None)
       | payload => (ERROR_OK, Some payload)
       end.

Record Dec := mkDec {
  d_var : Var;
  d_readOffset : list Z;
  d_readCount : list Z
}.

Definition decoder_init (v : Var) (nDims : Z)
    (readOffset readCount cubeOffset cubeDim : list Z)
    (ioSizeMerge ioSizeMax : Z) : Z * Dec :=
  (if nDims =? Z.of_nat (length (v_dims v)) then ERROR_OK else 3,
   mkDec v readOffset readCount).

Definition init_index_read (d : Dec) (ir : OmDecoder_indexRead)
  : OmDecoder_indexRead :=
  mkIndexRead 0 0 (mkOmRange 0 0) (mkOmRange 0 0) (mkOmRange 0 1).

Definition next_index_read (d : Dec) (ir : OmDecoder_indexRead)
  : bool * OmDecoder_indexRead :=
  let nx := ir_nextChunk ir in
  if lowerBound nx >=? upperBound nx then (false, ir)
  else (true, mkIndexRead (v_lut (d_var d)) 2 nx nx
                (mkOmRange (upperBound nx) (upperBound nx))).

Definition init_data_read (dr : OmDecoder_dataRead)
    (ir : OmDecoder_indexRead) : OmDecoder_dataRead :=
  mkDataRead 0 0 (ir_indexRange ir) (mkOmRange 0 0) (ir_chunkIndex ir).

Definition next_data_read (d : Dec) (dr : OmDecoder_dataRead)
    (indexData : bytes) (indexCount error : Z)
  : bool * OmDecoder_dataRead * Z :=
  let nx := dr_nextChunk dr in
  if lowerBound nx >=? upperBound nx then (false, dr, error)
  else match indexData with
       | [off; len] =>
           (true,
            mkDataRead (u8 off) (u8 len) (dr_indexRange dr) nx
              (mkOmRange (upperBound nx) (upperBound nx)),
            error)
       | _ => (false, dr, 4)
       end.

(** Row-major gather of the requested hyper-rectangle; [acc] is the
    linear index of the coordinates fixed so far. *)
Fixpoint gather (dims readOffset readCount : list Z) (acc : Z)
    (data : bytes) : bytes :=
  match dims, readOffset, readCount with
  | d :: ds, o :: os, c :: cs =>
      flat_map (fun i => gather ds os cs (acc * d + o + Z.of_nat i) data)
               (seq 0 (Z.to_nat c))
  | _, _, _ => [nth (Z.to_nat acc) data Byte.x00]
  end.

Definition decode_chunks (d : Dec) (chunkIndex : OmRange) (data : bytes)
    (n : Z) (out chunkBuffer : bytes) (error : Z)
  : bool * bytes * bytes * Z :=
  if Z.of_nat (length data) <? fold_left Z.mul (v_dims (d_var d)) 1
  then (false, out, chunkBuffer, 5)
  else
    let got := gather (v_dims (d_var d)) (d_readOffset d) (d_readCount d)
                      0 data in
    (true, got ++ drop (length got) out, chunkBuffer, error).

(** Modelled from the spec: the codec functions exported to
    [WasmModule], which are compiled from the C library and not part of
    the sources; here over one-byte fields and a single uncompressed
    chunk. Header and trailer sizes are 16 and 5; a fresh block is filled
    with the byte 170. *)
Definition wasm : WasmModule :=
  mkWasm Var Dec
    (fun n => replicate (Z.to_nat n) (B 170))
    16 header_type 5 trailer_read parse
    v_type v_compression (fun _ => 0) (fun _ => 0)
    v_dims v_chunks v_name
    (fun v => Z.of_nat (length (v_children v)))
    get_children get_scalar
    decoder_init init_index_read init_data_read (fun _ => 0)
    next_index_read next_data_read decode_chunks.

(** *** Example files *)

Definition file_of (l : list Z) : bytes := map B l.

(** Trailer-addressed: header, a 5x5 array of the bytes 0..24 named
    "temp", an Int8 scalar "k" of value -2, an unnamed Int8 node without
    payload whose only child is "k", and the root "root" with the array
    and the unnamed node as children. *)
Definition tree_file : bytes := file_of
  ([79; 77; 3; 0; 0; 0; 0; 0; 0; 0; 0; 0; 0; 0; 0; 0]
   ++ map Z.of_nat (seq 0 25)                                   (* 16 *)
   ++ [16; 25]                                                  (* 41 *)
   ++ [79; 77; 3; 13; 4; 2; 5; 5; 5; 5;
       4; 116; 101; 109; 112; 0; 0; 41]                          (* 43 *)
   ++ [79; 77; 3; 1; 4; 0; 1; 107; 0; 1; 254; 0]                 (* 61 *)
   ++ [79; 77; 3; 1; 4; 0; 0; 1; 61; 12; 0; 0]                   (* 73 *)
   ++ [79; 77; 3; 0; 4; 0; 4; 114; 111; 111; 116;
       2; 43; 18; 73; 12; 0; 0]                                  (* 85 *)
   ++ [79; 77; 3; 85; 18]).                                     (* 103 *)

(** Legacy: the metadata of a 4-element array sits in the header. *)
Definition legacy_file : bytes := file_of
  [79; 77; 2; 13; 4; 1; 4; 4; 0; 0; 0; 16; 0; 0; 0; 0;
   18; 4; 9; 8; 7; 6].

(** Legacy: the same array declared as an Int64 array. *)
Definition int64_file : bytes := file_of
  [79; 77; 2; 18; 4; 1; 4; 4; 0; 0; 0; 16; 0; 0; 0; 0;
   18; 4; 9; 8; 7; 6].

(** Trailer-addressed: the root "r" with two Int8 scalars as children,
    both named "a". *)
Definition twins_file : bytes := file_of
  ([79; 77; 3; 0; 0; 0; 0; 0; 0; 0; 0; 0; 0; 0; 0; 0]
   ++ [79; 77; 3; 1; 4; 0; 1; 97; 0; 1; 7; 0]                    (* 16 *)
   ++ [79; 77; 3; 1; 4; 0; 1; 97; 0; 1; 9; 0]                    (* 28 *)
   ++ [79; 77; 3; 0; 4; 0; 1; 114; 2; 16; 12; 28; 12; 0; 0]      (* 40 *)
   ++ [79; 77; 3; 40; 15]).                                     (* 55 *)

(** Trailer-addressed: a single variable, named "__proto__". *)
Definition proto_file : bytes := file_of
  ([79; 77; 3; 0; 0; 0; 0; 0; 0; 0; 0; 0; 0; 0; 0; 0]
   ++ [79; 77; 3; 0; 4; 0;
       9; 95; 95; 112; 114; 111; 116; 111; 95; 95; 0; 0; 0]      (* 16 *)
   ++ [79; 77; 3; 16; 19]).                                     (* 35 *)

(** Ten zero bytes: too short to hold a header. *)
Definition short_file : bytes := file_of (replicate 10 0).


End MiniCodec.

(** ** A UTF-8 decoder

    The decoder of the Encoding Standard behind [TextDecoder] (label
    "utf8", errors replaced, byte order mark dropped), with the text
    written back in UTF-8: a well-formed sequence comes out as it went
    in, and every ill-formed part becomes U+FFFD, the bytes EF BF BD. *)
Module Utf8.

Definition replacement : list Z := [239; 191; 189].

(** A byte met where a sequence starts: what it puts out at once, and
    the sequence it opens -- how many bytes are still needed, and the
    range the next one has to lie in. *)
Definition lead (b : Z) : list Z * option (nat * Z * Z) :=
  if b <=? 127 then ([b], None)
  else if (194 <=? b) && (b <=? 223) then ([], Some (1%nat, 128, 191))
  else if (224 <=? b) && (b <=? 239) then
    ([], Some (2%nat, if b =? 224 then 160 else 128,
               if b =? 237 then 159 else 191))
  else if (240 <=? b) && (b <=? 244) then
    ([], Some (3%nat, if b =? 240 then 144 else 128,
               if b =? 244 then 143 else 191))
  else (replacement, None).

Fixpoint decode_from (pending : list Z) (sequence : option (nat * Z * Z))
    (input : list Z) : list Z :=
  match input with
  | [] => match sequence with Some _ => replacement | None => [] end
  | b :: rest =>
      match sequence with
      | Some (needed, lo, hi) =>
          if (lo <=? b) && (b <=? hi) then
            match needed with
            | S (S n) =>
                decode_from (pending ++ [b]) (Some (S n, 128, 191)) rest
            | _ => pending ++ [b] ++ decode_from [] None rest
            end
          else
            replacement ++ fst (lead b) ++ decode_from [b] (snd (lead b)) rest
      | None => fst (lead b) ++ decode_from [b] (snd (lead b)) rest
      end
  end.

Definition without_mark (input : list Z) : list Z :=
  match input with
  | 239 :: 187 :: 191 :: rest => rest
  | _ => input
  end.

Definition decode (s : string) : string :=
  let input :=
    map (fun a => Z.of_N (Ascii.N_of_ascii a)) (list_ascii_of_string s) in
  string_of_list_ascii
    (map (fun z => Ascii.ascii_of_N (Z.to_N z))
         (decode_from [] None (without_mark input))).

End Utf8.

(** ** Readers over the example files *)
Module Examples.
Import Reader MiniCodec.

(** An engine with the decoder above and typed arrays of at most
    2^32 - 1 elements. *)
Definition engine : JsEngine :=
  mkJsEngine Utf8.decode (fun _ n => n <=? 4294967295).

Definition fresh : World wasm :=
  mkWorld new_reader (new_array Uint8Array 0) [].

Definition tree_backend : OmFileReaderBackend := FileBackend tree_file.

(** The world after [initialize] on the trailer-addressed file. *)
Definition root_world : World wasm :=
  snd (initialize wasm tree_backend fresh).

Definition child_of (w : World wasm) (index : Z) : OmFileReader wasm :=
  match fst (getChild wasm tree_backend index w) with
  | Returned (Some c) => c
  | _ => new_reader
  end.

(** The world of the reader [r] holding the buffer [buf], before any
    backend request. *)
Definition world_of (r : OmFileReader wasm) (buf : TypedArray) : World wasm :=
  mkWorld r buf [].

(** The 5x5 array "temp", the unnamed node, and the scalar "k". *)
Definition temp : OmFileReader wasm := child_of root_world 0.
Definition unnamed : OmFileReader wasm := child_of root_world 1.
Definition k : OmFileReader wasm :=
  child_of (world_of unnamed (new_array Uint8Array 0)) 0.

Definition legacy_backend : OmFileReaderBackend := FileBackend legacy_file.

(** The Int64 array of [int64_file]. *)
Definition int64_backend : OmFileReaderBackend := FileBackend int64_file.
Definition int64_world : World wasm :=
  snd (initialize wasm int64_backend fresh).

(** The roots of [twins_file] and of [proto_file], and the two
    children of the former. *)
Definition twins_backend : OmFileReaderBackend := FileBackend twins_file.
Definition twins_world : World wasm :=
  snd (initialize wasm twins_backend fresh).

Definition twin (index : Z) : OmFileReader wasm :=
  match fst (getChild wasm twins_backend index twins_world) with
  | Returned (Some c) => c
  | _ => new_reader
  end.

Definition proto_backend : OmFileReaderBackend := FileBackend proto_file.
Definition proto_world : World wasm :=
  snd (initialize wasm proto_backend fresh).

(** The parsed record a reader holds. *)
Definition variable_of (r : OmFileReader wasm) : Var :=
  match variable r with
  | Some v => v
  | None => parse []
  end.

(** The request of the read scenario, rows 0..1 and columns 0..1, and
    its result. *)
Definition corner : list Range := [mkRange 0 2; mkRange 0 2].

Definition corner_values : TypedArray :=
  mkTypedArray Uint8Array (map B [0; 1; 5; 6]).

(** Requests with an empty first range, with a second range beyond the
    extent 5, and of rank 3. *)
Definition empty_rows : list Range := [mkRange 0 0; mkRange 0 2].
Definition beyond : list Range := [mkRange 0 1; mkRange 0 6].

Definition inverted : list Range := [mkRange 0 5; mkRange 3 1].

(** The whole of the four-element array. *)
Definition whole : list Range := [mkRange 0 4].

Definition ioSizeMax : Z := 65536.
Definition ioSizeMerge : Z := 512.
End Examples.

(** * The other backends *)

Module Backends.

(** ** [FileBackend] over a [Uint8Array] source

    The variant of [FileBackend] that accepts a [File], a path, a
    [Uint8Array] or an [ArrayBuffer], for the two in-memory sources:
    the constructor records the length as [fileSize], [count] returns it
    when it is positive and throws otherwise, and [getBytes] is
    [this.file.slice(offset, offset + size)]. *)

(** [TypedArray.prototype.slice(begin, end)]: a negative index counts
    from the end, and both are clamped to the array. *)
Definition relative_index (len i : Z) : Z :=
  if i <? 0 then Z.max (len + i) 0 else Z.min i len.

Definition slice (data : bytes) (begin end_ : Z) : bytes :=
  let len := Z.of_nat (length data) in
  let k := relative_index len begin in
  let final := relative_index len end_ in
  take (Z.to_nat (Z.max (final - k) 0)) (drop (Z.to_nat k) data).

Definition FileBackendUint8Array (file : bytes) : OmFileReaderBackend :=
  let fileSize := Z.of_nat (length file) in
  mkBackend
    (fun offset size => Resolved (slice file offset (offset + size)))
    (if fileSize >? 0 then Resolved fileSize
     else Rejected "Unable to determine file size").

(** ** [S3Backend]

    The S3 client is the two commands the class sends: [HeadObject],
    answering with [ContentLength] if there is one, and [GetObject] with a
    [Range] header, answering with a [Body] if there is one; a command
    that fails is [Rejected] with the text the error has in a template
    string. The object carries the private fields the methods read and
    write, and the commands sent so far, oldest first.

    [count] and [getBytes] are [async]: each runs up to its [await] of
    the S3 call, and resumes with the response once it is there. Calls
    on one object may overlap, so that between the two stretches of one
    call stretches of others run. Each stretch is a function of the
    object; a call that nothing overlaps is its two stretches one after
    the other. *)

Record S3Client := mkS3Client {
  headObject : Fetched (option Z);
  getObject : string -> Fetched (option bytes)
}.

Inductive S3Command :=
| HeadObjectCommand
| GetObjectCommand (range : string).

Record S3Backend := mkS3Backend {
  fileSize : option Z;
  cachedRanges : gmap string bytes;
  cacheEnabled : bool;
  cacheMaxSize : Z;
  cacheSize : Z;
  sent : list S3Command
}.

(** The constructor: [cacheEnabled ?? true],
    [cacheMaxSize ?? 100 * 1024 * 1024], an empty cache. *)
Definition new_S3Backend (cacheEnabled_ : option bool)
    (cacheMaxSize_ : option Z) : S3Backend :=
  mkS3Backend None ∅
    (match cacheEnabled_ with Some b => b | None => true end)
    (match cacheMaxSize_ with Some n => n | None => 100 * 1024 * 1024 end)
    0 [].

Definition byteLength_of (data : bytes) : Z := Z.of_nat (length data).

Definition send (c : S3Command) (b : S3Backend) : S3Backend :=
  mkS3Backend (fileSize b) (cachedRanges b) (cacheEnabled b) (cacheMaxSize b)
              (cacheSize b) (sent b ++ [c]).

(** [count] up to its [await]: the size if it is known, otherwise the
    command is sent. *)
Definition count_begin (b : S3Backend) : option Z * S3Backend :=
  match fileSize b with
  | Some n => (Some n, b)
  | None => (None, send HeadObjectCommand b)
  end.

(** [count] from the response on. *)
Definition count_resume (response : Fetched (option Z)) (b : S3Backend)
    : Fetched Z * S3Backend :=
  match response with
  | Resolved (Some n) =>
      if n =? 0 then
        (Rejected ("Failed to get object size from S3: "
                   +:+ "Error: Unable to determine file size from S3"), b)
      else
        (Resolved n,
         mkS3Backend (Some n) (cachedRanges b) (cacheEnabled b)
                     (cacheMaxSize b) (cacheSize b) (sent b))
  | Resolved None =>
      (Rejected ("Failed to get object size from S3: "
                 +:+ "Error: Unable to determine file size from S3"), b)
  | Rejected msg =>
      (Rejected ("Failed to get object size from S3: " +:+ msg), b)
  end.

(** [cachedRanges.forEach(value => cacheSize -= value.byteLength)] *)
Definition forEach_subtract (m : gmap string bytes) (size0 : Z) : Z :=
  map_fold (fun _ value acc => acc - byteLength_of value) size0 m.

Definition cacheData (key : string) (data : bytes) (b : S3Backend) : S3Backend :=
  let b1 :=
    if cacheSize b + byteLength_of data >? cacheMaxSize b then
      mkS3Backend (fileSize b) ∅ (cacheEnabled b) (cacheMaxSize b)
                  (forEach_subtract (cachedRanges b) (cacheSize b)) (sent b)
    else b in
  mkS3Backend (fileSize b1) (<[key := data]> (cachedRanges b1))
              (cacheEnabled b1) (cacheMaxSize b1)
              (cacheSize b1 + byteLength_of data) (sent b1).

(** The template strings [`${offset}-${size}`] and
    [`bytes=${offset}-${offset + size - 1}`]. *)
Definition rangeKey (offset size : Z) : string :=
  pretty offset +:+ "-" +:+ pretty size.

Definition rangeHeader (offset size : Z) : string :=
  "bytes=" +:+ pretty offset +:+ "-" +:+ pretty (offset + size - 1).

(** [getBytes] up to its [await]: the cached bytes on a hit, otherwise
    the command is sent. *)
Definition getBytes_begin (offset size : Z) (b : S3Backend)
    : option bytes * S3Backend :=
  let key := rangeKey offset size in
  match (if cacheEnabled b then cachedRanges b !! key else None) with
  | Some data => (Some data, b)
  | None => (None, send (GetObjectCommand (rangeHeader offset size)) b)
  end.

(** [getBytes] from the response on: the body is stored if the cache
    is enabled, and returned. *)
Definition getBytes_resume (offset size : Z)
    (response : Fetched (option bytes)) (b : S3Backend)
    : Fetched bytes * S3Backend :=
  match response with
  | Resolved (Some data) =>
      (Resolved data,
       if cacheEnabled b then cacheData (rangeKey offset size) data b else b)
  | Resolved None =>
      (Rejected ("Failed to get bytes from S3: "
                 +:+ "Error: S3 response body is empty"), b)
  | Rejected msg =>
      (Rejected ("Failed to get bytes from S3: " +:+ msg), b)
  end.

Definition clearCache (b : S3Backend) : S3Backend :=
  mkS3Backend (fileSize b) ∅ (cacheEnabled b) (cacheMaxSize b) 0 (sent b).

(** What the object goes through while calls overlap: one stretch of
    some call at a time, a resumed call with whatever response S3 has
    given to its request. *)
Inductive stretch : S3Backend -> S3Backend -> Prop :=
| count_begins b : stretch b (snd (count_begin b))
| count_resumes response b : stretch b (snd (count_resume response b))
| getBytes_begins offset size b :
    stretch b (snd (getBytes_begin offset size b))
| getBytes_resumes offset size response b :
    stretch b (snd (getBytes_resume offset size response b))
| cache_cleared b : stretch b (clearCache b).

Section WithClient.
Context (client : S3Client).

(** [count] and [getBytes] as calls that nothing overlaps. *)
Definition s3_count (b : S3Backend) : Fetched Z * S3Backend :=
  match count_begin b with
  | (Some n, b1) => (Resolved n, b1)
  | (None, b1) => count_resume (headObject client) b1
  end.

Definition s3_getBytes (offset size : Z) (b : S3Backend)
    : Fetched bytes * S3Backend :=
  match getBytes_begin offset size b with
  | (Some data, b1) => (Resolved data, b1)
  | (None, b1) =>
      getBytes_resume offset size
        (getObject client (rangeHeader offset size)) b1
  end.

End WithClient.

(** ** [MemoryHttpBackend], once the file is in memory

    [loadFile] has resolved: [fileSize] holds the length the HEAD request
    announced and [fileData] the bytes of the body. [count] returns
    [fileSize]; [getBytes] checks [offset < 0 || offset + size >
    fileData.length] and returns [fileData.slice(offset, offset + size)],
    every error rethrown with the prefix "Error in getBytes: ". *)
Definition MemoryHttpBackend (fileSize : Z) (fileData : bytes)
    : OmFileReaderBackend :=
  let length_ := Z.of_nat (length fileData) in
  mkBackend
    (fun offset size =>
       if (offset <? 0) || (offset + size >? length_) then
         Rejected ("Error in getBytes: "
                   +:+ "Requested range (" +:+ pretty offset +:+ ":"
                   +:+ pretty (offset + size) +:+ ") is out of bounds (0:"
                   +:+ pretty length_ +:+ ")")
       else Resolved (slice fileData offset (offset + size)))
    (Resolved fileSize).

(** The bytes held by the cache, and the two accounts of them the
    class can be in: [cacheSize] is their number, or at least their
    number. *)
Definition cached_bytes (m : gmap string bytes) : Z :=
  map_fold (fun _ value acc => acc + byteLength_of value) 0 m.

Definition accounted (b : S3Backend) : Prop :=
  cacheSize b = cached_bytes (cachedRanges b).

Definition covered (b : S3Backend) : Prop :=
  cached_bytes (cachedRanges b) <= cacheSize b.

(** An S3 object of the bytes 0..9 served whole for every range, and a
    backend whose cache limit is 15 bytes. *)
Definition ten_bytes : bytes := map MiniCodec.B [0; 1; 2; 3; 4; 5; 6; 7; 8; 9].

Definition whole_object : S3Client :=
  mkS3Client (Resolved (Some 10)) (fun _ => Resolved (Some ten_bytes)).

Definition small_cache : S3Backend := new_S3Backend None (Some 15).

(** A backend with the default limit, and two requests for the range
    0..9 that overlap: both are sent before either response is there. *)
Definition roomy_cache : S3Backend := new_S3Backend None None.

Definition both_sent : S3Backend :=
  snd (getBytes_begin 0 10 (snd (getBytes_begin 0 10 roomy_cache))).

Definition both_stored : S3Backend :=
  snd (getBytes_resume 0 10 (Resolved (Some ten_bytes))
         (snd (getBytes_resume 0 10 (Resolved (Some ten_bytes)) both_sent))).

End Backends.

(** * Properties of the reader *)

Module ReaderFacts.
Import Reader.

Section WithModule.
Context (wasm : WasmModule) (backend : OmFileReaderBackend) (js : JsEngine).

Implicit Types (w : World wasm) (v : OmVariable wasm).

Lemma require_variable_none w :
  variable (this w) = None ->
  require_variable wasm w = (Thrown ReaderNotInitialized, w).
Proof. intros H. unfold require_variable, bind, get_this. now rewrite H. Qed.

Lemma require_variable_some w v :
  variable (this w) = Some v ->
  require_variable wasm w = (Returned v, w).
Proof. intros H. unfold require_variable, bind, get_this. now rewrite H. Qed.

Lemma dataType_some w v :
  variable (this w) = Some v ->
  dataType wasm w = (Returned (om_variable_get_type wasm v), w).
Proof.
  intros H. unfold dataType, bind. now rewrite (require_variable_some w v H).
Qed.





(** ** Type check of [read] and [readInto] *)

(** C10. On an initialized reader, [read] and [readInto] called with a
    data type other than the variable's own throw
    "Invalid data type: expected .., got .." at once: the world is
    unchanged, so no backend request has been issued and the output
    array has not been written. The error is none of the kinds the
    design document lists. *)
Theorem read_rejects_other_data_type
    w v fuel dataType_ dimRanges ioSizeMax ioSizeMerge :
  variable (this w) = Some v ->
  om_variable_get_type wasm v <> dataType_ ->
  let e := InvalidDataType (om_variable_get_type wasm v) dataType_ in
  fails_with wasm (read wasm backend js fuel dataType_ dimRanges ioSizeMax ioSizeMerge) e w
  /\ fails_with wasm (readInto wasm backend fuel dataType_ dimRanges ioSizeMax ioSizeMerge) e w
  /\ kind e = Unlisted.
Proof.
  intros Hv Hne e. apply Z.eqb_neq in Hne.
  unfold fails_with, read, readInto, bind.
  rewrite (require_variable_some w v Hv), (dataType_some w v Hv), Hne.
  simpl. auto.
Qed.

(** ** Child lookup *)

(** C2, amended. [getChild] compares the index with nothing: on an
    initialized reader it hands the index to the codec's child lookup,
    and whether it is below the child count or not, it resolves to
    [null], without a backend request, exactly when that lookup reports
    failure. When the lookup reports a location it asks the backend for
    it once and resolves to the child or fails with the backend's
    rejection. No other failure exists, so none of kind
    IndexOutOfRange. *)
Theorem getChild_out_of_range_is_null w v index :
  variable (this w) = Some v ->
  (getChild wasm backend index w = (Returned None, w)
   <-> om_variable_get_children wasm v index 1 = None)
  /\ (forall o s,
        om_variable_get_children wasm v index 1 = Some (o, s) ->
        snd (getChild wasm backend index w)
        = mkWorld (this w) (output w) (calls w ++ [GetBytes o s])
        /\ match getBytes backend o s with
           | Resolved data =>
               fst (getChild wasm backend index w)
               = Returned (Some (mkReader (Some (om_variable_init wasm data))
                                          (Some data) (Some data)
                                          (Some (mkOffsetSize o s))))
           | Rejected msg =>
               fst (getChild wasm backend index w) = Thrown (BackendError msg)
           end)
  /\ (forall e,
        fst (getChild wasm backend index w) = Thrown e ->
        exists o s msg,
          om_variable_get_children wasm v index 1 = Some (o, s)
          /\ getBytes backend o s = Rejected msg
          /\ e = BackendError msg).
Proof.
  intros Hv. unfold getChild, bind.
  rewrite (require_variable_some w v Hv).
  unfold initChildFromOffsetSize, await_getBytes, ret, throw, log, bind.
  destruct (om_variable_get_children wasm v index 1) as [[o s]|].
  - split; [|split].
    + split; [|discriminate].
      cbn [offset size]. destruct (getBytes backend o s); discriminate.
    + intros o' s' [= <- <-]. cbn [offset size].
      destruct (getBytes backend o s); split; reflexivity.
    + intros e. cbn [offset size].
      destruct (getBytes backend o s) as [data|msg] eqn:E; [discriminate|].
      intros [= <-]. exists o, s, msg. auto.
  - split; [|split].
    + split; reflexivity.
    + discriminate.
    + discriminate.
Qed.

(** ** Scalars *)

(** C3, amended. On an initialized reader, [readScalar] returns [null]
    when the variable's data type differs from the expected one, returns
    [null] as well when the codec reports an error for the embedded
    scalar, and never throws; in each case the world is unchanged. *)
Theorem readScalar_null_on_mismatch_or_error w v dataType_ :
  variable (this w) = Some v ->
  (om_variable_get_type wasm v <> dataType_ ->
   readScalar wasm dataType_ w = (Returned None, w))
  /\ (fst (om_variable_get_scalar wasm v) <> ERROR_OK ->
      readScalar wasm dataType_ w = (Returned None, w))
  /\ (exists result, readScalar wasm dataType_ w = (Returned result, w)).
Proof.
  intros Hv. unfold readScalar, bind.
  rewrite (require_variable_some w v Hv), (dataType_some w v Hv).
  destruct (om_variable_get_scalar wasm v) as [error data]; simpl.
  repeat split.
  - intros Hne. apply Z.eqb_neq in Hne. now rewrite Hne.
  - intros Hne. apply Z.eqb_neq in Hne. rewrite Hne.
    now destruct (om_variable_get_type wasm v =? dataType_).
  - destruct (om_variable_get_type wasm v =? dataType_); simpl; [|eauto].
    destruct (error =? ERROR_OK); simpl; [|eauto].
    destruct data; eauto.
Qed.


(** ** Validation order of [readInto] *)

Lemma wrapper_values (l : list Z) :
  map (fun i => if Z.of_nat i >=? Z.of_nat (length l) then 0
                else nth (Z.to_nat (Z.of_nat i)) l 0)
      (seq 0 (Z.to_nat (Z.of_nat (length l)))) = l.
Proof.
  rewrite Nat2Z.id.
  assert (G : forall (pre l0 : list Z),
             map (fun i => if Z.of_nat i >=? Z.of_nat (length (pre ++ l0)) then 0
                           else nth (Z.to_nat (Z.of_nat i)) (pre ++ l0) 0)
                 (seq (length pre) (length l0)) = l0).
  { intros pre l0. revert pre.
    induction l0 as [|x l0 IH]; intros pre; [reflexivity|].
    cbn [length seq map]. f_equal.
    - rewrite Nat2Z.id, length_app. cbn [length].
      destruct (Z.geb_spec (Z.of_nat (length pre))
                           (Z.of_nat (length pre + S (length l0)))); [lia|].
      rewrite app_nth2 by lia. now rewrite Nat.sub_diag.
    - specialize (IH (pre ++ [x])).
      replace ((pre ++ [x]) ++ l0) with (pre ++ x :: l0) in IH
        by now rewrite <- app_assoc.
      replace (length (pre ++ [x])) with (S (length pre)) in IH
        by (rewrite length_app; cbn [length]; lia).
      exact IH. }
  exact (G [] l).
Qed.

Lemma getDimensions_some w v :
  variable (this w) = Some v ->
  getDimensions wasm w = (Returned (om_variable_get_dimensions wasm v), w).
Proof.
  intros H. unfold getDimensions, bind, ret.
  rewrite (require_variable_some w v H).
  unfold om_variable_get_dimension_count, om_variable_get_dimension_value.
  cbv zeta. now rewrite wrapper_values.
Qed.

(** [readInto] on an initialized reader, its checks in the order in
    which they are made. *)
Lemma readInto_checks w v fuel dimRanges ioSizeMax ioSizeMerge :
  variable (this w) = Some v ->
  let dataType_ := om_variable_get_type wasm v in
  let fileDims := om_variable_get_dimensions wasm v in
  readInto wasm backend fuel dataType_ dimRanges ioSizeMax ioSizeMerge w =
    if negb (length fileDims =? length dimRanges)%nat then
      (Thrown (MismatchedDimensions (length fileDims) (length dimRanges)), w)
    else if Z.of_nat (ta_length (output w)) <? totalElements dimRanges then
      (Thrown (OutputTooSmall (totalElements dimRanges)
                              (ta_length (output w))), w)
    else
      match first_invalid_range 0 dimRanges fileDims with
      | Some (i, r) => (Thrown (InvalidRange i r), w)
      | None =>
          let '(error, decoder) :=
            om_decoder_init wasm v (Z.of_nat (length dimRanges))
              (map start dimRanges) (outDims dimRanges)
              (replicate (length dimRanges) 0) (outDims dimRanges)
              ioSizeMerge ioSizeMax in
          if negb (error =? ERROR_OK) then (Thrown (DecoderInitFailed error), w)
          else decode wasm backend fuel decoder w
      end.
Proof.
  intros Hv dataType_ fileDims. unfold readInto, bind.
  rewrite (require_variable_some w v Hv), (dataType_some w v Hv).
  fold dataType_. rewrite Z.eqb_refl. cbn [negb].
  rewrite (getDimensions_some w v Hv). fold fileDims.
  destruct (length fileDims =? length dimRanges)%nat; cbn [negb];
    [|reflexivity].
  unfold get_output, throw.
  destruct (Z.of_nat (ta_length (output w)) <? totalElements dimRanges);
    [reflexivity|].
  destruct (first_invalid_range 0 dimRanges fileDims) as [[i r]|];
    [reflexivity|].
  destruct (om_decoder_init wasm v (Z.of_nat (length dimRanges))
              (map start dimRanges) (outDims dimRanges)
              (replicate (length dimRanges) 0) (outDims dimRanges)
              ioSizeMerge ioSizeMax) as [error decoder].
  now destruct (error =? ERROR_OK).
Qed.

(** The fill loop stops at the first rejected range. *)
Lemma first_invalid_range_found dimRanges : forall fileDims k i r d,
  dimRanges !! i = Some r -> fileDims !! i = Some d ->
  invalid_range r d = true ->
  exists j r', first_invalid_range k dimRanges fileDims = Some ((k + j)%nat, r')
               /\ dimRanges !! j = Some r' /\ (j <= i)%nat
               /\ exists d', fileDims !! j = Some d' /\ invalid_range r' d' = true.
Proof.
  induction dimRanges as [|r0 rs IH]; intros fileDims k i r d Hr Hd Hinv;
    [discriminate|].
  destruct fileDims as [|d0 ds]; [discriminate|].
  cbn [first_invalid_range].
  destruct (invalid_range r0 d0) eqn:E0.
  - exists 0%nat, r0. rewrite Nat.add_0_r. repeat split; [lia|].
    exists d0. auto.
  - destruct i as [|i]; cbn in Hr, Hd.
    + injection Hr as <-. injection Hd as <-. congruence.
    + destruct (IH ds (S k) i r d Hr Hd Hinv)
        as (j & r' & Hf & Hj & Hle & d' & Hd' & Hi').
      exists (S j), r'. rewrite Hf. repeat split; [f_equal; f_equal; lia| |lia|]; auto.
      exists d'. auto.
Qed.

Lemma fold_mul_zero (l : list Z) : fold_left Z.mul l 0 = 0.
Proof. induction l as [|x l IH]; [reflexivity|exact IH]. Qed.

Lemma totalElements_zero dimRanges i r :
  dimRanges !! i = Some r -> start r = end_ r ->
  totalElements dimRanges = 0.
Proof.
  unfold totalElements, outDims. generalize 1.
  revert i. induction dimRanges as [|r0 rs IH]; intros i a Hr He;
    [discriminate|].
  destruct i as [|i]; cbn in Hr |- *.
  - injection Hr as ->. replace (end_ r - start r) with 0 by lia.
    rewrite Z.mul_0_r. apply fold_mul_zero.
  - now apply (IH i).
Qed.



Lemma granted_zero c : granted js c 0 = true.
Proof. reflexivity. Qed.


(** [read] on an initialized reader whose type has an output
    constructor: a fresh array of the product of the extents, if the
    engine hands one out, then [readInto], then the array. *)
Lemma read_checks w v fuel dimRanges ioSizeMax ioSizeMerge c :
  variable (this w) = Some v ->
  let dataType_ := om_variable_get_type wasm v in
  output_ctor dataType_ = Some c ->
  read wasm backend js fuel dataType_ dimRanges ioSizeMax ioSizeMerge w =
    if granted js c (totalElements dimRanges) then
      let run :=
        readInto wasm backend fuel dataType_ dimRanges ioSizeMax ioSizeMerge
          (with_output wasm
             (new_array c (Z.to_nat (totalElements dimRanges))) w) in
      match fst run with
      | Returned _ => (Returned (output (snd run)), snd run)
      | Thrown e => (Thrown e, snd run)
      | OutOfFuel => (OutOfFuel, snd run)
      end
    else (Thrown RangeError, w).
Proof.
  intros Hv dataType_ Hc. unfold read, bind.
  rewrite (require_variable_some w v Hv), (dataType_some w v Hv).
  fold dataType_. rewrite Z.eqb_refl, Hc. cbn [negb].
  unfold new_typed_array.
  destruct (granted js c (totalElements dimRanges)); [|reflexivity].
  unfold set_output, get_output. cbv zeta.
  now destruct (readInto wasm backend fuel dataType_ dimRanges ioSizeMax
                  ioSizeMerge _) as [[u|e|] w'].
Qed.

(** [read] for a type without an output constructor. *)
Lemma read_unsupported w v fuel dimRanges ioSizeMax ioSizeMerge :
  variable (this w) = Some v ->
  output_ctor (om_variable_get_type wasm v) = None ->
  read wasm backend js fuel (om_variable_get_type wasm v) dimRanges
       ioSizeMax ioSizeMerge w
  = (Thrown UnsupportedDataType, w).
Proof.
  intros Hv Hc. unfold read, bind.
  rewrite (require_variable_some w v Hv), (dataType_some w v Hv).
  now rewrite Z.eqb_refl, Hc.
Qed.

Lemma within_lookup dimRanges fileDims i r :
  within dimRanges fileDims -> dimRanges !! i = Some r ->
  exists d, fileDims !! i = Some d
            /\ 0 <= start r /\ start r <= end_ r /\ end_ r <= d.
Proof.
  unfold within. intros H Hr.
  destruct (Forall2_lookup_l _ _ _ _ _ H Hr) as (d & Hd & Hb). eauto.
Qed.

(** C1, amended. On an initialized reader, a request of the variable's
    own type whose ranges all lie within the file's dimensions and in
    which some dimension has [start == end] is rejected: [readInto]
    throws "Invalid range for dimension i" (kind RangeOutOfBounds) for
    an empty dimension [i], leaving the world unchanged, and [read],
    for a type it has an output constructor for, throws the same error
    after allocating a zero-length array. *)
Theorem empty_range_is_rejected
    w v fuel dimRanges ioSizeMax ioSizeMerge :
  variable (this w) = Some v ->
  let dataType_ := om_variable_get_type wasm v in
  within dimRanges (om_variable_get_dimensions wasm v) ->
  (exists i r, dimRanges !! i = Some r /\ start r = end_ r) ->
  exists i r,
    dimRanges !! i = Some r /\ start r = end_ r
    /\ kind (InvalidRange i r) = RangeOutOfBounds
    /\ fails_with wasm
         (readInto wasm backend fuel dataType_ dimRanges ioSizeMax ioSizeMerge)
         (InvalidRange i r) w
    /\ (forall c, output_ctor dataType_ = Some c ->
          read wasm backend js fuel dataType_ dimRanges ioSizeMax ioSizeMerge w
          = (Thrown (InvalidRange i r),
             with_output wasm (new_array c 0) w)).
Proof.
  intros Hv dataType_ Hin (i & r & Hr & He).
  destruct (within_lookup _ _ _ _ Hin Hr) as (d & Hd & _).
  assert (Hinv : invalid_range r d = true).
  { unfold invalid_range. destruct (Z.geb_spec (start r) (end_ r)); [|lia].
    now rewrite orb_true_r. }
  destruct (first_invalid_range_found _ _ 0%nat _ _ _ Hr Hd Hinv)
    as (j & r' & Hf & Hj & _ & d' & Hd' & Hinv').
  cbn [Nat.add] in Hf.
  destruct (within_lookup _ _ _ _ Hin Hj) as (d'' & Hd'' & B0 & B1 & B2).
  rewrite Hd' in Hd''. injection Hd'' as <-.
  assert (He' : start r' = end_ r').
  { unfold invalid_range in Hinv'.
    destruct (Z.ltb_spec (start r') 0); [lia|].
    destruct (Z.gtb_spec (end_ r') d'); [lia|].
    destruct (Z.geb_spec (start r') (end_ r')); [lia|discriminate]. }
  pose proof (totalElements_zero _ _ _ Hj He') as Ht.
  pose proof (Forall2_length _ _ _ Hin) as Hlen.
  assert (Hgo : forall w', variable (this w') = Some v ->
            readInto wasm backend fuel dataType_ dimRanges ioSizeMax
                     ioSizeMerge w' = (Thrown (InvalidRange j r'), w')).
  { intros w' Hv'. unfold dataType_.
    rewrite (readInto_checks w' v fuel dimRanges ioSizeMax ioSizeMerge Hv').
    cbv zeta. rewrite <- Hlen, Nat.eqb_refl, Ht, Hf. cbn [negb].
    destruct (Z.ltb_spec (Z.of_nat (ta_length (output w'))) 0); [lia|].
    reflexivity. }
  exists j, r'. repeat split; auto.
  - now apply Hgo.
  - intros c Hc. unfold dataType_.
    rewrite (read_checks w v fuel dimRanges ioSizeMax ioSizeMerge c Hv Hc).
    cbv zeta. rewrite Ht, granted_zero. change (Z.to_nat 0) with 0%nat.
    fold dataType_. now rewrite Hgo.
Qed.



(** ** The decode loops *)

Lemma await_getBytes_with_output a w o n :
  await_getBytes wasm backend o n (with_output wasm a w) =
    (fst (await_getBytes wasm backend o n w),
     with_output wasm a (snd (await_getBytes wasm backend o n w))).
Proof. unfold await_getBytes. now destruct (getBytes backend o n). Qed.

(** The loops neither read nor write the output array. *)
Lemma data_read_loop_with_output a fuel :
  forall decoder dataRead indexData indexCount s w,
    data_read_loop wasm backend fuel decoder dataRead indexData indexCount s
                   (with_output wasm a w) =
    (fst (data_read_loop wasm backend fuel decoder dataRead indexData
                         indexCount s w),
     with_output wasm a
       (snd (data_read_loop wasm backend fuel decoder dataRead indexData
                            indexCount s w))).
Proof.
  induction fuel as [|fuel IH]; intros; [reflexivity|].
  cbn [data_read_loop].
  destruct (om_decoder_next_data_read wasm decoder dataRead indexData
              indexCount (errorCell s)) as [[more dataRead'] error'].
  destruct more.
  - unfold bind. rewrite await_getBytes_with_output.
    destruct (await_getBytes wasm backend (dr_offset dataRead')
                (dr_count dataRead') w) as [[dataBlock|e|] w1];
      cbn [fst snd]; try reflexivity.
    destruct (om_decoder_decode_chunks wasm decoder (dr_chunkIndex dataRead')
                dataBlock (dr_count dataRead') (outputMem s) (chunkBuffer s)
                error') as [[[success out'] cb'] error''].
    destruct success; [apply IH|reflexivity].
  - now destruct (error' =? ERROR_OK).
Qed.

Lemma index_read_loop_with_output a fuel :
  forall decoder indexRead s w,
    index_read_loop wasm backend fuel decoder indexRead s
                    (with_output wasm a w) =
    (fst (index_read_loop wasm backend fuel decoder indexRead s w),
     with_output wasm a
       (snd (index_read_loop wasm backend fuel decoder indexRead s w))).
Proof.
  induction fuel as [|fuel IH]; intros; [reflexivity|].
  cbn [index_read_loop].
  destruct (om_decoder_next_index_read wasm decoder indexRead)
    as [more indexRead'].
  destruct more; [|reflexivity].
  unfold bind. rewrite await_getBytes_with_output.
  destruct (await_getBytes wasm backend (ir_offset indexRead')
              (ir_count indexRead') w) as [[indexData|e|] w1];
    cbn [fst snd]; try reflexivity.
  rewrite data_read_loop_with_output.
  destruct (data_read_loop wasm backend fuel decoder (newDataRead wasm indexRead')
              indexData (ir_count indexRead') s w1) as [[s'|e|] w2];
    cbn [fst snd]; try reflexivity.
  apply IH.
Qed.

(** What the loops throw: a decoder failure or a backend failure. *)
Lemma data_read_loop_thrown fuel :
  forall decoder dataRead indexData indexCount s w e,
    fst (data_read_loop wasm backend fuel decoder dataRead indexData
                        indexCount s w) = Thrown e ->
    kind e = DecodeError \/ kind e = IOError.
Proof.
  induction fuel as [|fuel IH]; intros *; [discriminate|].
  cbn [data_read_loop].
  destruct (om_decoder_next_data_read wasm decoder dataRead indexData
              indexCount (errorCell s)) as [[more dataRead'] error'].
  destruct more.
  - unfold bind, await_getBytes.
    destruct (getBytes backend (dr_offset dataRead') (dr_count dataRead'))
      as [dataBlock|msg]; [|intros [= <-]; now right].
    destruct (om_decoder_decode_chunks wasm decoder (dr_chunkIndex dataRead')
                dataBlock (dr_count dataRead') (outputMem s) (chunkBuffer s)
                error') as [[[success out'] cb'] error''].
    destruct success; [apply IH|intros [= <-]; now left].
  - destruct (error' =? ERROR_OK); [discriminate|intros [= <-]; now left].
Qed.

Lemma index_read_loop_thrown fuel :
  forall decoder indexRead s w e,
    fst (index_read_loop wasm backend fuel decoder indexRead s w) = Thrown e ->
    kind e = DecodeError \/ kind e = IOError.
Proof.
  induction fuel as [|fuel IH]; intros *; [discriminate|].
  cbn [index_read_loop].
  destruct (om_decoder_next_index_read wasm decoder indexRead)
    as [more indexRead'].
  destruct more; [|discriminate].
  unfold bind, await_getBytes.
  destruct (getBytes backend (ir_offset indexRead') (ir_count indexRead'))
    as [indexData|msg]; [|intros [= <-]; now right].
  destruct (data_read_loop wasm backend fuel decoder (newDataRead wasm indexRead')
              indexData (ir_count indexRead') s _) as [[s'|e'|] w2] eqn:E;
    cbn [fst]; [apply IH| |discriminate].
  intros [= <-]. eapply data_read_loop_thrown. now rewrite E.
Qed.

(** [decode] against the output array [a]: the loops run as they would
    against any other array; on success [a] is replaced by a view of its
    own length over the decoded block, otherwise it is left alone. *)
Lemma decode_with_output fuel decoder a w :
  decode wasm backend fuel decoder (with_output wasm a w) =
    let run :=
      index_read_loop wasm backend fuel decoder (newIndexRead wasm decoder)
        (mkScratch (_malloc wasm (Z.of_nat (byteLength a)))
                   (_malloc wasm (om_decoder_read_buffer_size wasm decoder))
                   ERROR_OK) w in
    let n := (ta_length a * BYTES_PER_ELEMENT (ctor a))%nat in
    match fst run with
    | Returned s =>
        (Returned tt,
         with_output wasm
           (mkTypedArray (ctor a)
              (resize n Byte.x00 (outputMem s) ++ drop n (buffer a)))
           (snd run))
    | Thrown e => (Thrown e, with_output wasm a (snd run))
    | OutOfFuel => (OutOfFuel, with_output wasm a (snd run))
    end.
Proof.
  unfold decode, bind, get_output. cbn [output with_output].
  change (mkWorld (this w) a (calls w)) with (with_output wasm a w).
  rewrite index_read_loop_with_output.
  now destruct (index_read_loop wasm backend fuel decoder
                  (newIndexRead wasm decoder) _ w) as [[s|e|] w1].
Qed.

Lemma with_output_self w : with_output wasm (output w) w = w.
Proof. now destruct w. Qed.

Lemma decode_thrown fuel decoder w e :
  fst (decode wasm backend fuel decoder w) = Thrown e ->
  kind e = DecodeError \/ kind e = IOError.
Proof.
  rewrite <- (with_output_self w), decode_with_output. cbv zeta.
  destruct (index_read_loop wasm backend fuel decoder
              (newIndexRead wasm decoder) _ w) as [[s|e'|] w1] eqn:E;
    cbn [fst]; try discriminate.
  intros [= <-]. eapply index_read_loop_thrown. now rewrite E.
Qed.

(** ** Buffer size *)

(** C6. On an initialized reader and for a request of the variable's
    own type and rank, [readInto] throws "Output array is too small"
    (kind BufferTooSmall), leaving the world unchanged, whenever the
    buffer holds fewer elements than the product of the range extents;
    when the buffer holds at least that many, whatever [readInto] throws
    is not of kind BufferTooSmall. *)
Theorem readInto_checks_buffer_size
    w v fuel dimRanges ioSizeMax ioSizeMerge :
  variable (this w) = Some v ->
  length dimRanges = length (om_variable_get_dimensions wasm v) ->
  let dataType_ := om_variable_get_type wasm v in
  let has := ta_length (output w) in
  (Z.of_nat has < totalElements dimRanges ->
     let e := OutputTooSmall (totalElements dimRanges) has in
     kind e = BufferTooSmall
     /\ fails_with wasm
          (readInto wasm backend fuel dataType_ dimRanges ioSizeMax ioSizeMerge)
          e w)
  /\ (totalElements dimRanges <= Z.of_nat has ->
      forall e,
        fst (readInto wasm backend fuel dataType_ dimRanges ioSizeMax
                      ioSizeMerge w) = Thrown e ->
        kind e <> BufferTooSmall).
Proof.
  intros Hv Hlen dataType_ has.
  unfold fails_with, dataType_.
  rewrite (readInto_checks w v fuel dimRanges ioSizeMax ioSizeMerge Hv).
  cbv zeta. rewrite Hlen, Nat.eqb_refl. cbn [negb]. fold has. split.
  - intros Hsmall.
    destruct (Z.ltb_spec (Z.of_nat has) (totalElements dimRanges)); [|lia].
    auto.
  - intros Hbig e.
    destruct (Z.ltb_spec (Z.of_nat has) (totalElements dimRanges)); [lia|].
    destruct (first_invalid_range 0 dimRanges _) as [[i r]|].
    { intros [= <-]. discriminate. }
    destruct (om_decoder_init wasm v _ _ _ _ _ _ _) as [error decoder].
    destruct (error =? ERROR_OK); cbn [negb].
    + intros He. destruct (decode_thrown _ _ _ _ He) as [K|K];
        rewrite K; discriminate.
    + intros [= <-]. discriminate.
Qed.


(** ** [read] against [readInto] *)

Lemma sized_array_length a c n :
  ctor a = c -> byteLength a = (n * BYTES_PER_ELEMENT c)%nat ->
  ta_length a = n.
Proof.
  intros Hc Hb. unfold ta_length. rewrite Hb, Hc.
  apply Nat.div_mul. now destruct c.
Qed.

(** Two arrays of one constructor and one length are interchangeable as
    the buffer of [readInto]: the outcome is the same, and after a
    success so is the whole world, buffer included. *)
Lemma readInto_buffer_contents
    w v fuel dimRanges ioSizeMax ioSizeMerge c n a1 a2 :
  variable (this w) = Some v ->
  ctor a1 = c -> byteLength a1 = (n * BYTES_PER_ELEMENT c)%nat ->
  ctor a2 = c -> byteLength a2 = (n * BYTES_PER_ELEMENT c)%nat ->
  let run a :=
    readInto wasm backend fuel (om_variable_get_type wasm v) dimRanges
             ioSizeMax ioSizeMerge (with_output wasm a w) in
  fst (run a1) = fst (run a2)
  /\ (forall u, fst (run a1) = Returned u -> snd (run a1) = snd (run a2)).
Proof.
  intros Hv C1 B1 C2 B2 run. unfold run.
  pose proof (sized_array_length a1 c n C1 B1) as L1.
  pose proof (sized_array_length a2 c n C2 B2) as L2.
  rewrite !(readInto_checks _ v fuel dimRanges ioSizeMax ioSizeMerge)
    by exact Hv.
  cbv zeta. cbn [output with_output]. rewrite L1, L2.
  change (mkWorld (this w) a1 (calls w)) with (with_output wasm a1 w).
  change (mkWorld (this w) a2 (calls w)) with (with_output wasm a2 w).
  destruct (negb (_ =? _)%nat); [split; [reflexivity|discriminate]|].
  destruct (Z.of_nat n <? totalElements dimRanges);
    [split; [reflexivity|discriminate]|].
  destruct (first_invalid_range 0 dimRanges _) as [[i r]|];
    [split; [reflexivity|discriminate]|].
  destruct (om_decoder_init wasm v _ _ _ _ _ _ _) as [error decoder].
  destruct (negb (error =? ERROR_OK)); [split; [reflexivity|discriminate]|].
  rewrite !decode_with_output. cbv zeta.
  rewrite L1, L2, C1, C2, B1, B2.
  destruct (index_read_loop wasm backend fuel decoder _ _ w) as [[s|e|] w1];
    cbn [fst snd]; (split; [reflexivity|]); try discriminate.
  intros u _. do 2 f_equal. unfold byteLength in B1, B2.
  now rewrite !drop_ge by lia.
Qed.

(** C7, amended. For a data type [read] has an output constructor for
    (the eight typed arrays of 8, 16 and 32-bit integers and of floats
    and doubles) and ranges for whose product of extents the engine
    hands out an array, [read] returns the array [a] exactly when
    [readInto], given a caller buffer of that constructor and of as many
    elements as the product of the extents, succeeds and leaves [a] in
    the buffer; both end in the same world, so they have issued the same
    backend requests. The prior contents of the caller's buffer play no
    part. [read] returns in no other case: for a variable of any other
    type -- the 64-bit integer arrays among them -- it throws
    "Unsupported data type" and leaves the world as it was, whatever
    [readInto] does with a caller's buffer. *)
Theorem read_returns_what_readInto_writes
    w fuel dataType_ dimRanges ioSizeMax ioSizeMerge :
  let total := totalElements dimRanges in
  (forall c buf a w',
     output_ctor dataType_ = Some c ->
     granted js c total = true ->
     ctor buf = c ->
     byteLength buf = (Z.to_nat total * BYTES_PER_ELEMENT c)%nat ->
     read wasm backend js fuel dataType_ dimRanges ioSizeMax ioSizeMerge w
       = (Returned a, w')
     <-> (readInto wasm backend fuel dataType_ dimRanges ioSizeMax ioSizeMerge
                   (with_output wasm buf w) = (Returned tt, w')
          /\ output w' = a))
  /\ (forall a w',
        read wasm backend js fuel dataType_ dimRanges ioSizeMax ioSizeMerge w
          = (Returned a, w') ->
        exists c, output_ctor dataType_ = Some c
                  /\ granted js c total = true)
  /\ (forall v,
        variable (this w) = Some v ->
        om_variable_get_type wasm v = dataType_ ->
        output_ctor dataType_ = None ->
        fails_with wasm
          (read wasm backend js fuel dataType_ dimRanges ioSizeMax ioSizeMerge)
          UnsupportedDataType w).
Proof.
  intros total. split; [|split].
  - intros c buf a w' Hc Hgranted Cb Bb.
    destruct (variable (this w)) as [v|] eqn:Hv.
    2:{ assert (Hv' : variable (this (with_output wasm buf w)) = None)
          by exact Hv.
        unfold read, readInto, bind.
        rewrite (require_variable_none _ Hv), (require_variable_none _ Hv').
        split; [discriminate|intros [? _]; discriminate]. }
    destruct (Z.eq_dec (om_variable_get_type wasm v) dataType_) as [<-|Hne].
    2:{ assert (Hv' : variable (this (with_output wasm buf w)) = Some v)
          by exact Hv.
        apply Z.eqb_neq in Hne. unfold read, readInto, bind.
        rewrite (require_variable_some _ v Hv), (dataType_some _ v Hv), Hne.
        rewrite (require_variable_some _ v Hv'), (dataType_some _ v Hv'), Hne.
        split; [discriminate|intros [? _]; discriminate]. }
    rewrite (read_checks w v fuel dimRanges ioSizeMax ioSizeMerge c Hv Hc).
    fold total. rewrite Hgranted. cbv zeta.
    destruct (readInto_buffer_contents w v fuel dimRanges ioSizeMax ioSizeMerge
                c (Z.to_nat total) (new_array c (Z.to_nat total)) buf Hv)
      as [Hfst Hsnd]; auto.
    { unfold new_array, byteLength. cbn [buffer].
      now rewrite length_replicate. }
    cbv zeta in Hfst, Hsnd.
    destruct (readInto wasm backend fuel (om_variable_get_type wasm v)
                dimRanges ioSizeMax ioSizeMerge
                (with_output wasm (new_array c _) w)) as [[[]|e|] w1];
      destruct (readInto wasm backend fuel (om_variable_get_type wasm v)
                  dimRanges ioSizeMax ioSizeMerge (with_output wasm buf w))
        as [[[]|e2|] w2];
      cbn [fst snd] in *; try discriminate;
      try (split; [discriminate|intros [? _]; discriminate]).
    specialize (Hsnd tt eq_refl). subst w2.
    split.
    + intros [= Ha Hw]. subst. auto.
    + intros [[= Hw] Ha]. subst. reflexivity.
  - intros a w'.
    destruct (variable (this w)) as [v|] eqn:Hv.
    2:{ unfold read, bind. now rewrite (require_variable_none _ Hv). }
    destruct (Z.eq_dec (om_variable_get_type wasm v) dataType_) as [<-|Hne].
    2:{ apply Z.eqb_neq in Hne. unfold read, bind.
        now rewrite (require_variable_some _ v Hv), (dataType_some _ v Hv),
          Hne. }
    destruct (output_ctor (om_variable_get_type wasm v)) as [c|] eqn:Hc.
    2:{ now rewrite (read_unsupported w v fuel dimRanges ioSizeMax
                       ioSizeMerge Hv Hc). }
    rewrite (read_checks w v fuel dimRanges ioSizeMax ioSizeMerge c Hv Hc).
    fold total. destruct (granted js c total) eqn:G; [eauto|discriminate].
  - intros v Hv <- Hc.
    exact (read_unsupported w v fuel dimRanges ioSizeMax ioSizeMerge Hv Hc).
Qed.


(** ** Backend requests of [initialize] *)

(** C8. The first backend request of [initialize] fetches the header.
    The total size is asked for only if that fetch resolved and the
    header is classified as trailer-addressed, and then right after
    the header fetch; a legacy header is followed by no request at all.
    In trailer mode, once the size [fileSize] is known, the next request
    fetches [om_trailer_size] bytes at [fileSize - om_trailer_size], and
    the size is not asked for again. *)
Theorem initialize_asks_size_only_for_trailer w :
  let headerSize := om_header_size wasm in
  let trailerSize := om_trailer_size wasm in
  exists rest,
    calls (snd (initialize wasm backend w))
      = calls w ++ GetBytes 0 headerSize :: rest
    /\ (In Count rest ->
        exists header,
          getBytes backend 0 headerSize = Resolved header
          /\ om_header_type wasm header = OM_HEADER_READ_TRAILER)
    /\ (forall header,
          getBytes backend 0 headerSize = Resolved header ->
          om_header_type wasm header = OM_HEADER_LEGACY ->
          rest = [])
    /\ (forall header fileSize,
          getBytes backend 0 headerSize = Resolved header ->
          om_header_type wasm header = OM_HEADER_READ_TRAILER ->
          count backend = Resolved fileSize ->
          exists rest',
            rest = Count :: GetBytes (fileSize - trailerSize) trailerSize
                         :: rest'
            /\ ~ In Count rest').
Proof.
  intros headerSize trailerSize.
  unfold initialize, await_getBytes, await_count, get_this, set_this,
    throw, ret, log, bind.
  fold headerSize trailerSize.
  destruct (getBytes backend 0 headerSize) as [hd|msg] eqn:Eh.
  2:{ exists []. cbn. split; [reflexivity|].
      split; [intros []|]. split; intros; discriminate. }
  destruct (Z.eqb_spec (om_header_type wasm hd) OM_HEADER_INVALID)
    as [E0|N0].
  { exists []. cbn. split; [reflexivity|]. split; [intros []|].
    split; [reflexivity|].
    intros header fileSize [= <-] H. rewrite E0 in H. discriminate. }
  destruct (Z.eqb_spec (om_header_type wasm hd) OM_HEADER_LEGACY)
    as [E1|N1].
  { exists []. cbn. split; [reflexivity|]. split; [intros []|].
    split; [reflexivity|].
    intros header fileSize [= <-] H. rewrite E1 in H. discriminate. }
  assert (Hleg : forall (l : list BackendCall) (header : bytes),
             Resolved hd = Resolved header ->
             om_header_type wasm header = OM_HEADER_LEGACY -> l = []).
  { intros l header [= <-] H. congruence. }
  destruct (Z.eqb_spec (om_header_type wasm hd) OM_HEADER_READ_TRAILER)
    as [E2|N2].
  2:{ exists []. cbn. split; [reflexivity|]. split; [intros []|].
      split; [reflexivity|].
      intros header fileSize [= <-] H. congruence. }
  destruct (count backend) as [n|msg] eqn:Ec.
  2:{ exists [Count]. cbn. rewrite <- app_assoc.
      split; [reflexivity|]. split; [intros _; exists hd; auto|].
      split; [apply Hleg|]. intros; discriminate. }
  assert (Hsz : forall rest',
             ~ In Count rest' ->
             forall header fileSize,
               Resolved hd = Resolved header ->
               om_header_type wasm header = OM_HEADER_READ_TRAILER ->
               Resolved n = Resolved fileSize ->
               exists rest'0,
                 Count :: GetBytes (n - trailerSize) trailerSize :: rest'
                 = Count :: GetBytes (fileSize - trailerSize) trailerSize
                         :: rest'0
                 /\ ~ In Count rest'0).
  { intros rest' Hnot header fileSize _ _ [= <-]. eauto. }
  destruct (getBytes backend (n - trailerSize) trailerSize) as [td|msg].
  2:{ exists [Count; GetBytes (n - trailerSize) trailerSize]. cbn.
      rewrite <- !app_assoc.
      split; [reflexivity|]. split; [intros _; exists hd; auto|].
      split; [apply Hleg|]. apply Hsz. intros []. }
  destruct (om_trailer_read wasm td) as [[o s]|].
  2:{ exists [Count; GetBytes (n - trailerSize) trailerSize]. cbn.
      rewrite <- !app_assoc.
      split; [reflexivity|]. split; [intros _; exists hd; auto|].
      split; [apply Hleg|]. apply Hsz. intros []. }
  exists [Count; GetBytes (n - trailerSize) trailerSize; GetBytes o s].
  assert (Hnot : ~ In Count [GetBytes o s]).
  { intros [H|[]]. discriminate. }
  destruct (getBytes backend o s) as [vd|msg]; cbn;
    rewrite <- !app_assoc;
    (split; [reflexivity|]); (split; [intros _; exists hd; auto|]);
    (split; [apply Hleg|]); now apply Hsz.
Qed.


(** ** The tree walk *)

Lemma record_all_app l1 l2 result :
  record_all (l1 ++ l2) result = record_all l2 (record_all l1 result).
Proof. apply fold_left_app. Qed.

Lemma bind_returned {A B} (m : M wasm A) (f : A -> M wasm B) w b w' :
  bind wasm m f w = (Returned b, w') <->
  exists a w1, m w = (Returned a, w1) /\ f a w1 = (Returned b, w').
Proof.
  unfold bind. destruct (m w) as [[a|e|] w1]; split.
  - eauto.
  - now intros (a' & w1' & [= <- <-] & H).
  - discriminate.
  - now intros (a' & w1' & [=] & _).
  - discriminate.
  - now intros (a' & w1' & [=] & _).
Qed.

Lemma getName_some w v :
  variable (this w) = Some v ->
  getName wasm js w = (Returned (node_name wasm js v), w).
Proof.
  intros H. unfold getName, node_name, bind.
  rewrite (require_variable_some w v H). cbv zeta.
  now destruct (String.length (om_variable_get_name wasm v) =? 0)%nat.
Qed.

(** [getChild] on an initialized reader. *)
Lemma getChild_runs w v index :
  variable (this w) = Some v ->
  getChild wasm backend index w =
    match om_variable_get_children wasm v index 1 with
    | None => (Returned None, w)
    | Some (o, s) =>
        let w1 := mkWorld (this w) (output w) (calls w ++ [GetBytes o s]) in
        match getBytes backend o s with
        | Resolved data =>
            (Returned (Some (mkReader (Some (om_variable_init wasm data))
                                      (Some data) (Some data)
                                      (Some (mkOffsetSize o s)))), w1)
        | Rejected msg => (Thrown (BackendError msg), w1)
        end
    end.
Proof.
  intros Hv. unfold getChild, bind. rewrite (require_variable_some w v Hv).
  unfold initChildFromOffsetSize, await_getBytes, ret, throw, log, bind.
  destruct (om_variable_get_children wasm v index 1) as [[o s]|];
    [|reflexivity].
  cbn [offset size]. now destruct (getBytes backend o s).
Qed.

Lemma mapM_cons {A B} (f : A -> option B) x l :
  mapM f (x :: l)
  = match f x with
    | Some y => match mapM f l with Some k => Some (y :: k) | None => None end
    | None => None
    end.
Proof. cbn. destruct (f x); [|reflexivity]. now destruct (mapM f l). Qed.

(** The tree of a file has the name of its variable and the location
    it was found at. *)
Lemma file_tree_root depth v location t :
  file_tree wasm backend js depth v location = Some t ->
  exists children, t = Node (node_name wasm js v) location children.
Proof.
  destruct depth as [|depth]; [discriminate|]. cbn [file_tree].
  destruct (mapM _ _) as [tss|]; [|discriminate].
  intros [= <-]. eauto.
Qed.

Section Walk.
Context (fuel : nat).
Hypothesis IH : forall path result w v,
  variable (this w) = Some v ->
  walks wasm backend js fuel path result w
        (file_tree wasm backend js fuel v (offsetSize (this w))).

(** The loop over the child indices [l], against the subtrees of those
    indices. *)
Lemma walk_children v below l : forall acc w,
  variable (this w) = Some v ->
  let body i acc :=
    bind wasm (getChild wasm backend (Z.of_nat i)) (fun child =>
    match child with
    | Some c =>
        on wasm c (collectVariableMetadata wasm backend js fuel below acc)
    | None => ret wasm acc
    end) in
  match mapM (child_tree wasm backend (file_tree wasm backend js fuel) v) l with
  | Some tss =>
      for_each wasm l body acc w
      = (Returned (record_all (flat_map (flat_entries below) (concat tss)) acc),
         mkWorld (this w) (output w)
                 (calls w ++ walk_requests (Node None None (concat tss))))
  | None =>
      forall acc' w', for_each wasm l body acc w <> (Returned acc', w')
  end.
Proof.
  induction l as [|i l IHl]; intros acc w Hv body.
  - cbn. unfold ret. destruct w. cbn. now rewrite app_nil_r.
  - rewrite mapM_cons. unfold child_tree at 1.
    assert (Hcons : for_each wasm (i :: l) body acc w
      = match body i acc w with
        | (Returned acc1, w1) => for_each wasm l body acc1 w1
        | (Thrown e, w1) => (Thrown e, w1)
        | (OutOfFuel, w1) => (OutOfFuel, w1)
        end) by reflexivity.
    rewrite Hcons. clear Hcons.
    assert (Hstep : body i acc w
      = match om_variable_get_children wasm v (Z.of_nat i) 1 with
        | None => (Returned acc, w)
        | Some (o, s) =>
            let w1 := mkWorld (this w) (output w)
                              (calls w ++ [GetBytes o s]) in
            match getBytes backend o s with
            | Resolved data =>
                on wasm (mkReader (Some (om_variable_init wasm data))
                                  (Some data) (Some data)
                                  (Some (mkOffsetSize o s)))
                   (collectVariableMetadata wasm backend js fuel below acc) w1
            | Rejected msg => (Thrown (BackendError msg), w1)
            end
        end).
    { unfold body, bind. rewrite (getChild_runs w v _ Hv).
      destruct (om_variable_get_children wasm v (Z.of_nat i) 1) as [[o s]|];
        [|reflexivity].
      cbv zeta. now destruct (getBytes backend o s). }
    rewrite Hstep. clear Hstep.
    destruct (om_variable_get_children wasm v (Z.of_nat i) 1) as [[o s]|].
    2:{ specialize (IHl acc w Hv). cbv zeta in IHl. fold body in IHl.
        destruct (mapM _ l) as [tss|]; [exact IHl|].
        intros acc' w'. apply IHl. }
    cbv zeta.
    destruct (getBytes backend o s) as [data|msg]; [|discriminate].
    set (c := mkReader (Some (om_variable_init wasm data)) (Some data)
                       (Some data) (Some (mkOffsetSize o s))).
    set (w1 := mkWorld (this w) (output w) (calls w ++ [GetBytes o s])).
    pose proof (IH below acc (mkWorld c (output w1) (calls w1))
                   (om_variable_init wasm data) eq_refl) as Hc.
    cbn [this offsetSize c] in Hc. unfold on.
    destruct (file_tree wasm backend js fuel (om_variable_init wasm data)
                (Some (mkOffsetSize o s))) as [t|] eqn:Et; cbn [mbind option_bind].
    2:{ unfold walks in Hc.
        destruct (collectVariableMetadata wasm backend js fuel below acc _)
          as [[flat|e|] w2] eqn:E; [|discriminate..].
        destruct (Hc flat w2). reflexivity. }
    unfold walks in Hc. rewrite Hc.
    destruct (file_tree_root _ _ _ _ Et) as [children ->].
    set (w2 := mkWorld (this w1) _ _).
    specialize (IHl (record_all
                       (flat_entries below
                          (Node (node_name wasm js (om_variable_init wasm data))
                                (Some (mkOffsetSize o s)) children)) acc)
                    w2 Hv).
    cbv zeta in IHl. fold body in IHl.
    destruct (mapM _ l) as [tss|]; [|intros acc' w'; apply IHl].
    rewrite IHl. f_equal.
    + f_equal. cbn [concat]. rewrite flat_map_app, record_all_app.
      cbn [flat_map]. now rewrite app_nil_r.
    + unfold w2, w1. cbn [this output calls concat app].
      f_equal. cbn [walk_requests flat_map offset size].
      now rewrite <- !app_assoc.
Qed.
End Walk.

(** The walk against the tree of the file, for every fuel: over a tree
    that can be read within the fuel it returns the record of the
    tree's entries after the tree's requests, and over any other it
    does not return. *)
Lemma walk_follows_file_tree fuel : forall path result w v,
  variable (this w) = Some v ->
  walks wasm backend js fuel path result w
        (file_tree wasm backend js fuel v (offsetSize (this w))).
Proof.
  induction fuel as [|fuel IH]; intros path result w v Hv.
  - cbn. discriminate.
  - cbn [file_tree collectVariableMetadata].
    pose proof (walk_children fuel IH v
                  (match node_name wasm js v with
                   | Some n => path ++ [n]
                   | None => path
                   end)
                  (seq 0 (Z.to_nat (om_variable_get_children_count wasm v)))
                  (match node_name wasm js v, offsetSize (this w) with
                   | Some n, Some os => assign (pathStr (path ++ [n])) os result
                   | _, _ => result
                   end)
                  w Hv) as Hloop.
    cbv zeta in Hloop.
    assert (Hrun : collectVariableMetadata wasm backend js (S fuel) path
                     result w
                   = for_each wasm
                       (seq 0 (Z.to_nat (om_variable_get_children_count wasm v)))
                       (fun i acc =>
                          bind wasm (getChild wasm backend (Z.of_nat i))
                            (fun child =>
                             match child with
                             | Some c =>
                                 on wasm c
                                   (collectVariableMetadata wasm backend js fuel
                                      (match node_name wasm js v with
                                       | Some n => path ++ [n]
                                       | None => path
                                       end) acc)
                             | None => ret wasm acc
                             end))
                       (match node_name wasm js v, offsetSize (this w) with
                        | Some n, Some os =>
                            assign (pathStr (path ++ [n])) os result
                        | _, _ => result
                        end) w).
    { cbn [collectVariableMetadata]. unfold bind at 1.
      rewrite (getName_some w v Hv). unfold bind at 1, get_this.
      unfold bind at 1, numberOfChildren, bind.
      now rewrite (require_variable_some w v Hv). }
    destruct (mapM _ _) as [tss|]; cbn [mbind option_bind walks].
    + fold (collectVariableMetadata wasm backend js).
      change (collectVariableMetadata wasm backend js (S fuel) path result w
              = (Returned
                   (record_all
                      (flat_entries path
                         (Node (node_name wasm js v) (offsetSize (this w))
                               (concat tss))) result),
                 mkWorld (this w) (output w)
                   (calls w
                    ++ walk_requests
                         (Node (node_name wasm js v) (offsetSize (this w))
                               (concat tss))))).
      rewrite Hrun, Hloop. f_equal. f_equal.
      cbn [flat_entries]. rewrite record_all_app. f_equal.
      now destruct (node_name wasm js v), (offsetSize (this w)).
    + intros flat w'.
      change (collectVariableMetadata wasm backend js (S fuel) path result w
              <> (Returned flat, w')).
      rewrite Hrun. apply Hloop.
Qed.

(** More depth reads the same tree. *)
Lemma file_tree_more_depth depth : forall v location t,
  file_tree wasm backend js depth v location = Some t ->
  file_tree wasm backend js (S depth) v location = Some t.
Proof.
  induction depth as [|depth IH]; intros v location t H; [discriminate|].
  cbn [file_tree] in H. remember (S depth) as depth1 eqn:E.
  cbn [file_tree].
  destruct (mapM (child_tree wasm backend (file_tree wasm backend js depth) v)
              _) as [tss|] eqn:Et; [|discriminate].
  assert (Hmore : mapM (child_tree wasm backend
                          (file_tree wasm backend js depth1) v)
                    (seq 0 (Z.to_nat (om_variable_get_children_count wasm v)))
                  = Some tss).
  { apply mapM_Some. apply mapM_Some in Et.
    eapply Forall2_impl; [exact Et|].
    intros i ts. unfold child_tree.
    destruct (om_variable_get_children wasm v (Z.of_nat i) 1) as [[o s]|];
      [|auto].
    destruct (getBytes backend o s) as [data|msg]; [|auto].
    destruct (file_tree wasm backend js depth (om_variable_init wasm data) _)
      as [t0|] eqn:E0; [|discriminate].
    now rewrite (IH _ _ _ E0). }
  now rewrite Hmore.
Qed.

Lemma file_tree_deeper depth more v location t :
  file_tree wasm backend js depth v location = Some t ->
  file_tree wasm backend js (depth + more) v location = Some t.
Proof.
  intros H. induction more as [|more IH].
  - now rewrite Nat.add_0_r.
  - rewrite Nat.add_succ_r. now apply file_tree_more_depth.
Qed.

(** ** What a record holds after the entries have been written *)

Lemma last_entry_snoc key entries k os :
  last_entry key (entries ++ [(k, os)])
  = if decide (k = key) then Some os else last_entry key entries.
Proof.
  unfold last_entry. rewrite filter_app.
  destruct (decide (k = key)) as [->|Hne].
  - rewrite (filter_cons_True _ (key, os)) by reflexivity.
    cbn [filter list_filter]. now rewrite last_snoc.
  - rewrite (filter_cons_False _ (k, os)) by exact Hne.
    cbn [filter list_filter]. now rewrite app_nil_r.
Qed.

Lemma record_all_snoc entries e result :
  record_all (entries ++ [e]) result
  = assign (fst e) (snd e) (record_all entries result).
Proof. now rewrite record_all_app. Qed.

Lemma record_all_own entries result key :
  key <> "__proto__"%string ->
  own (record_all entries result) !! key
  = match last_entry key entries with
    | Some os => Some os
    | None => own result !! key
    end.
Proof.
  intros Hkey. induction entries as [|[k os] entries IH] using rev_ind;
    [reflexivity|].
  rewrite record_all_snoc, last_entry_snoc. cbn [fst snd]. unfold assign.
  destruct (String.eqb_spec k "__proto__") as [->|Hk]; cbn [own].
  - destruct (decide ("__proto__"%string = key)); [congruence|exact IH].
  - destruct (decide (k = key)) as [->|Hne].
    + apply lookup_insert_eq.
    + rewrite lookup_insert_ne by exact Hne. exact IH.
Qed.

Lemma record_all_proto entries result :
  own (record_all entries result) !! "__proto__"%string
  = own result !! "__proto__"%string
  /\ proto (record_all entries result)
     = match last_entry "__proto__" entries with
       | Some os => Some os
       | None => proto result
       end.
Proof.
  induction entries as [|[k os] entries [IHo IHp]] using rev_ind;
    [split; reflexivity|].
  rewrite record_all_snoc, last_entry_snoc. cbn [fst snd]. unfold assign.
  destruct (String.eqb_spec k "__proto__") as [->|Hk]; cbn [own proto].
  - destruct (decide ("__proto__"%string = "__proto__"%string));
      [auto|congruence].
  - destruct (decide (k = "__proto__"%string)); [congruence|].
    rewrite lookup_insert_ne by exact Hk. auto.
Qed.

(** C9, amended. Over a file whose metadata tree [file_tree] can be
    read -- every child the codec's table locates for an index below
    the child count is there, in index order, read from the backend at
    that location -- [collectVariableMetadata] returns, for this fuel
    and for any greater one, having asked the backend for the nodes
    below the root in depth-first order, a node before its children.
    The record it returns is the one it was given with the entries of
    [flat_entries] written into it in that order: an entry
    "parent/child/.../name" with the node's location for each node that
    has both a name and a location, none for a node that lacks either,
    whose children are entered all the same under the path of its named
    ancestors. Written one after the other, the entries leave under a
    key the location of the last node of that path; a path that no node
    has keeps what the record held. The key "__proto__" never becomes a
    property: the record's prototype is what such an entry leaves. *)
Theorem flat_metadata_walk fuel path result w v t :
  variable (this w) = Some v ->
  file_tree wasm backend js fuel v (offsetSize (this w)) = Some t ->
  let entries := flat_entries path t in
  let flat := record_all entries result in
  (forall more,
     collectVariableMetadata wasm backend js (fuel + more) path result w
     = (Returned flat,
        mkWorld (this w) (output w) (calls w ++ walk_requests t)))
  /\ (forall key,
        key <> "__proto__"%string ->
        own flat !! key
        = match last_entry key entries with
          | Some os => Some os
          | None => own result !! key
          end)
  /\ own flat !! "__proto__"%string = own result !! "__proto__"%string
  /\ proto flat
     = match last_entry "__proto__" entries with
       | Some os => Some os
       | None => proto result
       end.
Proof.
  intros Hv Ht entries flat. split; [|split].
  - intros more.
    pose proof (walk_follows_file_tree (fuel + more) path result w v Hv) as H.
    now rewrite (file_tree_deeper fuel more _ _ _ Ht) in H.
  - intros key Hkey. now apply record_all_own.
  - apply record_all_proto.
Qed.

End WithModule.
End ReaderFacts.

(** * The properties on the example files *)

Module Scenarios.
Import Reader MiniCodec Examples ReaderFacts.

(** C1, counterexample. On the initialized reader of the 5x5 array, the
  request [0:0] x [0:2] of the variable's own type lies within the
  dimensions and has an empty first range, yet [readInto], into a buffer
  of any size, and [read] throw "Invalid range for dimension 0" instead
  of yielding zero elements. *)
Lemma empty_range_request_throws :
let w := world_of temp (new_array Uint8Array 0) in
om_variable_get_dimensions wasm (variable_of temp) = [5; 5]
/\ om_variable_get_type wasm (variable_of temp) = DATA_TYPE_UINT8_ARRAY
/\ readInto wasm tree_backend 5 DATA_TYPE_UINT8_ARRAY empty_rows
            ioSizeMax ioSizeMerge w
   = (Thrown (InvalidRange 0 (mkRange 0 0)), w)
/\ read wasm tree_backend engine 5 DATA_TYPE_UINT8_ARRAY empty_rows
        ioSizeMax ioSizeMerge w
   = (Thrown (InvalidRange 0 (mkRange 0 0)), w).
Proof. vm_compute. repeat split. Qed.

(** C1, amended, on the 5x5 array with the request [0:0] x [0:2]. *)
Lemma empty_range_is_rejected_witness :
let w := world_of temp (new_array Uint8Array 0) in
exists i r,
  empty_rows !! i = Some r /\ start r = end_ r
  /\ kind (InvalidRange i r) = RangeOutOfBounds
  /\ fails_with wasm
       (readInto wasm tree_backend 5 DATA_TYPE_UINT8_ARRAY empty_rows
                 ioSizeMax ioSizeMerge)
       (InvalidRange i r) w
  /\ (forall c, output_ctor DATA_TYPE_UINT8_ARRAY = Some c ->
        read wasm tree_backend engine 5 DATA_TYPE_UINT8_ARRAY empty_rows
             ioSizeMax ioSizeMerge w
        = (Thrown (InvalidRange i r), with_output wasm (new_array c 0) w)).
Proof.
intros w.
apply (empty_range_is_rejected wasm tree_backend engine w (variable_of temp) 5
         empty_rows ioSizeMax ioSizeMerge).
- vm_compute. reflexivity.
- unfold within. vm_compute om_variable_get_dimensions.
  repeat (constructor; [cbn [start end_]; lia|]). constructor.
- exists 0%nat, (mkRange 0 0). split; reflexivity.
Defined.

(** C2, counterexample. The root of the example tree has two children,
  and [getChild(5)] resolves to [null] instead of failing. *)
Lemma getChild_beyond_count_resolves_null :
om_variable_get_children_count wasm (variable_of (this root_world)) = 2
/\ getChild wasm tree_backend 5 root_world = (Returned None, root_world).
Proof. vm_compute. split; reflexivity. Qed.

(** C2, amended, on the root of the example tree: index 5, for which
    the codec has no location, and index 1, the unnamed node. *)
Lemma getChild_out_of_range_is_null_witness :
getChild wasm tree_backend 5 root_world = (Returned None, root_world)
/\ snd (getChild wasm tree_backend 1 root_world)
   = mkWorld (this root_world) (output root_world)
             (calls root_world ++ [GetBytes 73 12]).
Proof.
assert (Hv : variable (this root_world) = Some (variable_of (this root_world)))
  by (vm_compute; reflexivity).
split.
- destruct (getChild_out_of_range_is_null wasm tree_backend root_world
              (variable_of (this root_world)) 5 Hv) as (Hnull & _ & _).
  apply Hnull. vm_compute. reflexivity.
- destruct (getChild_out_of_range_is_null wasm tree_backend root_world
              (variable_of (this root_world)) 1 Hv) as (_ & Hsome & _).
  destruct (Hsome 73 12) as [Hw _]; [vm_compute; reflexivity|exact Hw].
Defined.

(** C3, counterexample to its second half. The unnamed node of the
  example tree is an Int8 scalar without payload, the codec reports
  error 2 for it, and [readScalar(Int8)] returns [null] instead of
  failing. *)
Lemma readScalar_malformed_payload_returns_null :
let w := world_of unnamed (new_array Uint8Array 0) in
om_variable_get_type wasm (variable_of unnamed) = DATA_TYPE_INT8
/\ fst (om_variable_get_scalar wasm (variable_of unnamed)) = 2
/\ readScalar wasm DATA_TYPE_INT8 w = (Returned None, w).
Proof. vm_compute. repeat split. Qed.

(** C3, amended: "k" asked for as Uint8, and the node without payload
    asked for as Int8. *)
Lemma readScalar_null_on_mismatch_or_error_witness :
let wk := world_of k (new_array Uint8Array 0) in
let wu := world_of unnamed (new_array Uint8Array 0) in
readScalar wasm DATA_TYPE_UINT8 wk = (Returned None, wk)
/\ readScalar wasm DATA_TYPE_INT8 wu = (Returned None, wu).
Proof.
intros wk wu. split.
- assert (Hk : variable (this wk) = Some (variable_of k))
    by (vm_compute; reflexivity).
  destruct (readScalar_null_on_mismatch_or_error wasm wk (variable_of k)
              DATA_TYPE_UINT8 Hk) as (Hother & _ & _).
  apply Hother. vm_compute. discriminate.
- assert (Hu : variable (this wu) = Some (variable_of unnamed))
    by (vm_compute; reflexivity).
  destruct (readScalar_null_on_mismatch_or_error wasm wu
              (variable_of unnamed) DATA_TYPE_INT8 Hu) as (_ & Herror & _).
  apply Herror. vm_compute. discriminate.
Defined.





(** C6 on the request [0:2] x [0:2]: a buffer of 3 elements is too
    small, a buffer of 4 is not. *)
Lemma readInto_checks_buffer_size_witness :
let small := world_of temp (new_array Uint8Array 3) in
let exact := world_of temp (new_array Uint8Array 4) in
fails_with wasm
  (readInto wasm tree_backend 5 DATA_TYPE_UINT8_ARRAY corner
            ioSizeMax ioSizeMerge)
  (OutputTooSmall 4 3) small
/\ (forall e,
      fst (readInto wasm tree_backend 5 DATA_TYPE_UINT8_ARRAY corner
                    ioSizeMax ioSizeMerge exact) = Thrown e ->
      kind e <> BufferTooSmall).
Proof.
intros small exact. split.
- assert (Hv : variable (this small) = Some (variable_of temp))
    by (vm_compute; reflexivity).
  destruct (readInto_checks_buffer_size wasm tree_backend small
              (variable_of temp) 5 corner ioSizeMax ioSizeMerge Hv)
    as (Hsmall & _); [vm_compute; reflexivity|].
  apply Hsmall. vm_compute. reflexivity.
- assert (Hv : variable (this exact) = Some (variable_of temp))
    by (vm_compute; reflexivity).
  destruct (readInto_checks_buffer_size wasm tree_backend exact
              (variable_of temp) 5 corner ioSizeMax ioSizeMerge Hv)
    as (_ & Hbig); [vm_compute; reflexivity|].
  apply Hbig. vm_compute. discriminate.
Defined.

(** The read scenario: rows 0..1 and columns 0..1 of the 5x5 array of
  0..24 are 0, 1, 5, 6, fetched with one index request and one data
  request. *)
Lemma read_corner :
let w := world_of temp (new_array Uint8Array 0) in
read wasm tree_backend engine 5 DATA_TYPE_UINT8_ARRAY corner ioSizeMax ioSizeMerge w
= (Returned corner_values,
   mkWorld temp corner_values [GetBytes 41 2; GetBytes 16 25]).
Proof. vm_compute. reflexivity. Qed.

(** C7, counterexample. The variable of [int64_file] is an Int64
    array of four elements. Asked for all four, [readInto] fills a
    caller's buffer of four elements, and [read] of the same type and
    ranges throws "Unsupported data type": it returns no values. *)
Lemma read_has_no_array_for_int64 :
let w := int64_world in
let buf := new_array Float64Array 4 in
om_variable_get_type wasm (variable_of (this w)) = DATA_TYPE_INT64_ARRAY
/\ om_variable_get_dimensions wasm (variable_of (this w)) = [4]
/\ fst (readInto wasm int64_backend 5 DATA_TYPE_INT64_ARRAY whole
                 ioSizeMax ioSizeMerge (with_output wasm buf w))
   = Returned tt
/\ read wasm int64_backend engine 5 DATA_TYPE_INT64_ARRAY whole
        ioSizeMax ioSizeMerge w
   = (Thrown UnsupportedDataType, w).
Proof. vm_compute. repeat split. Qed.

(** C7, amended, on the request [0:2] x [0:2] and a caller buffer that
    held four nines, and on the Int64 array. *)
Lemma read_returns_what_readInto_writes_witness :
let w := world_of temp (new_array Uint8Array 0) in
let buf := mkTypedArray Uint8Array (map B [9; 9; 9; 9]) in
let w' := mkWorld temp corner_values [GetBytes 41 2; GetBytes 16 25] in
(readInto wasm tree_backend 5 DATA_TYPE_UINT8_ARRAY corner
          ioSizeMax ioSizeMerge (with_output wasm buf w) = (Returned tt, w')
 /\ output w' = corner_values)
/\ fails_with wasm
     (read wasm int64_backend engine 5 DATA_TYPE_INT64_ARRAY whole
           ioSizeMax ioSizeMerge)
     UnsupportedDataType int64_world.
Proof.
intros w buf w'. split.
- destruct (read_returns_what_readInto_writes wasm tree_backend engine w 5
              DATA_TYPE_UINT8_ARRAY corner ioSizeMax ioSizeMerge)
    as (Hsame & _).
  apply (Hsame Uint8Array buf corner_values w').
  + reflexivity.
  + vm_compute. reflexivity.
  + reflexivity.
  + reflexivity.
  + vm_compute. reflexivity.
- destruct (read_returns_what_readInto_writes wasm int64_backend engine
              int64_world 5 DATA_TYPE_INT64_ARRAY whole ioSizeMax ioSizeMerge)
    as (_ & _ & Hnone).
  apply (Hnone (variable_of (this int64_world))).
  + vm_compute. reflexivity.
  + vm_compute. reflexivity.
  + reflexivity.
Defined.

(** C8 on the legacy file and on the trailer-addressed file of 108
    bytes. *)
Lemma initialize_asks_size_only_for_trailer_witness :
calls (snd (initialize wasm legacy_backend fresh)) = [GetBytes 0 16]
/\ exists rest',
     calls (snd (initialize wasm tree_backend fresh))
     = [GetBytes 0 16; Count; GetBytes (108 - 5) 5] ++ rest'
     /\ ~ In Count rest'.
Proof.
split.
- destruct (initialize_asks_size_only_for_trailer wasm legacy_backend fresh)
    as (rest & Hcalls & _ & Hlegacy & _).
  rewrite Hcalls.
  rewrite (Hlegacy (take 16 legacy_file));
    [reflexivity|vm_compute; reflexivity|vm_compute; reflexivity].
- destruct (initialize_asks_size_only_for_trailer wasm tree_backend fresh)
    as (rest & Hcalls & _ & _ & Htrailer).
  destruct (Htrailer (take 16 tree_file) 108) as (rest' & Hrest & Hnot);
    [vm_compute; reflexivity|vm_compute; reflexivity|vm_compute; reflexivity|].
  exists rest'. rewrite Hcalls, Hrest. split; [reflexivity|exact Hnot].
Defined.

(** C9, counterexample. The root "r" of [twins_file] has two
    children, each with the name "a" and a location of its own. The
    walk visits both, and the record it returns has one entry "r/a",
    with the location of the second: the first child has a name and a
    location, and no key is mapped to its location. *)
Lemma children_of_one_name_leave_one_entry :
let buf := new_array Uint8Array 0 in
fst (getName wasm engine (world_of (twin 0) buf))
= Returned (Some "a"%string)
/\ offsetSize (twin 0) = Some (mkOffsetSize 16 12)
/\ fst (getName wasm engine (world_of (twin 1) buf))
   = Returned (Some "a"%string)
/\ offsetSize (twin 1) = Some (mkOffsetSize 28 12)
/\ getFlatVariableMetadata wasm twins_backend engine 2 twins_world
   = (Returned
        (mkJsRecord
           (<["r/a"%string := mkOffsetSize 28 12]>
              {["r"%string := mkOffsetSize 40 15]})
           None),
      mkWorld (this twins_world) (output twins_world)
              (calls twins_world ++ [GetBytes 16 12; GetBytes 28 12])).
Proof. vm_compute. repeat split. Qed.

(** C9, amended, on the example tree: the root and the array are
    recorded under "root" and "root/temp"; the unnamed node is not
    recorded, and its child "k" is recorded under "root/k". *)
Lemma flat_metadata_walk_witness :
let t :=
  Node (Some "root"%string) (Some (mkOffsetSize 85 18))
    [Node (Some "temp"%string) (Some (mkOffsetSize 43 18)) [];
     Node None (Some (mkOffsetSize 73 12))
       [Node (Some "k"%string) (Some (mkOffsetSize 61 12)) []]] in
getFlatVariableMetadata wasm tree_backend engine 3 root_world
= (Returned (record_all [("root"%string, mkOffsetSize 85 18);
                         ("root/temp"%string, mkOffsetSize 43 18);
                         ("root/k"%string, mkOffsetSize 61 12)] empty_record),
   mkWorld (this root_world) (output root_world)
           (calls root_world
            ++ [GetBytes 43 18; GetBytes 73 12; GetBytes 61 12])).
Proof.
intros t.
destruct (flat_metadata_walk wasm tree_backend engine 3 [] empty_record
            root_world (variable_of (this root_world)) t) as (Hwalk & _).
- vm_compute. reflexivity.
- vm_compute. reflexivity.
- exact (Hwalk 0%nat).
Defined.

(** C10 on the Uint8 array asked for as a float array. *)
Lemma read_rejects_other_data_type_witness :
let w := world_of temp (new_array Float32Array 4) in
let e := InvalidDataType DATA_TYPE_UINT8_ARRAY DATA_TYPE_FLOAT_ARRAY in
fails_with wasm
  (read wasm tree_backend engine 5 DATA_TYPE_FLOAT_ARRAY corner ioSizeMax ioSizeMerge)
  e w
/\ fails_with wasm
     (readInto wasm tree_backend 5 DATA_TYPE_FLOAT_ARRAY corner
               ioSizeMax ioSizeMerge)
     e w
/\ kind e = Unlisted.
Proof.
intros w e.
apply (read_rejects_other_data_type wasm tree_backend engine w
         (variable_of temp) 5
         DATA_TYPE_FLOAT_ARRAY corner ioSizeMax ioSizeMerge).
- vm_compute. reflexivity.
- vm_compute. discriminate.
Defined.
End Scenarios.

(** * Further properties of the reader *)

Module ReaderLaws.
Import Reader ReaderFacts.

Section WithModule.
Context (wasm : WasmModule) (backend : OmFileReaderBackend) (js : JsEngine).

Implicit Types (w : World wasm) (v : OmVariable wasm).

(** ** Dimensions *)

(** X1. On an initialized reader, [getDimensions] and
    [getChunkDimensions], which ask the C wrappers for a count and then
    for one value per index, return the codec's dimension and chunk lists
    as they are; asked for an index at or beyond the count, the wrappers
    answer 0. *)
Theorem dimensions_are_the_codec_lists w v :
  variable (this w) = Some v ->
  getDimensions wasm w = (Returned (om_variable_get_dimensions wasm v), w)
  /\ getChunkDimensions wasm w = (Returned (om_variable_get_chunks wasm v), w)
  /\ (forall index,
        om_variable_get_dimension_count wasm v <= index ->
        om_variable_get_dimension_value wasm v index = 0)
  /\ (forall index,
        om_variable_get_chunk_count wasm v <= index ->
        om_variable_get_chunk_value wasm v index = 0).
Proof.
  intros H. repeat split.
  - unfold getDimensions, bind, ret. rewrite (require_variable_some wasm w v H).
    unfold om_variable_get_dimension_count, om_variable_get_dimension_value.
    cbv zeta. now rewrite wrapper_values.
  - unfold getChunkDimensions, bind, ret.
    rewrite (require_variable_some wasm w v H).
    unfold om_variable_get_chunk_count, om_variable_get_chunk_value.
    cbv zeta. now rewrite wrapper_values.
  - intros index. unfold om_variable_get_dimension_count,
      om_variable_get_dimension_value. cbv zeta. intros Hi.
    destruct (Z.geb_spec index
                (Z.of_nat (length (om_variable_get_dimensions wasm v))));
      [reflexivity|lia].
  - intros index. unfold om_variable_get_chunk_count,
      om_variable_get_chunk_value. cbv zeta. intros Hi.
    destruct (Z.geb_spec index
                (Z.of_nat (length (om_variable_get_chunks wasm v))));
      [reflexivity|lia].
Qed.

(** ** [initialize] *)

(** X2. When [initialize] succeeds the header fetch resolved and the
    reader holds the variable parsed from the metadata bytes, which it
    keeps: for a legacy header these are the header bytes themselves and
    the reader has no location; for a trailer-addressed header they are
    the bytes at the location the trailer names, which becomes the
    reader's location. When it fails, the error is of kind InvalidFormat,
    InvalidTrailer or IOError. *)
Theorem initialize_outcomes w :
  let headerSize := om_header_size wasm in
  let trailerSize := om_trailer_size wasm in
  match initialize wasm backend w with
  | (Returned _, w') =>
      exists header data location,
        getBytes backend 0 headerSize = Resolved header
        /\ this w' = mkReader (Some (om_variable_init wasm data))
                              (Some data) (Some data) location
        /\ ((om_header_type wasm header = OM_HEADER_LEGACY
             /\ data = header /\ location = None)
            \/ (om_header_type wasm header = OM_HEADER_READ_TRAILER
                /\ exists fileSize trailer o s,
                     count backend = Resolved fileSize
                     /\ getBytes backend (fileSize - trailerSize) trailerSize
                        = Resolved trailer
                     /\ om_trailer_read wasm trailer = Some (o, s)
                     /\ getBytes backend o s = Resolved data
                     /\ location = Some (mkOffsetSize o s)))
  | (Thrown e, _) =>
      kind e = InvalidFormat \/ kind e = InvalidTrailer \/ kind e = IOError
  | (OutOfFuel, _) => False
  end.
Proof.
  intros headerSize trailerSize.
  unfold initialize, await_getBytes, await_count, get_this, set_this,
    throw, ret, log, bind.
  fold headerSize trailerSize.
  destruct (getBytes backend 0 headerSize) as [hd|msg] eqn:Eh; [|auto].
  destruct (Z.eqb_spec (om_header_type wasm hd) OM_HEADER_INVALID)
    as [E0|N0]; [auto|].
  destruct (Z.eqb_spec (om_header_type wasm hd) OM_HEADER_LEGACY) as [E1|N1].
  { exists hd, hd, None. cbn. split; [reflexivity|]. split; [reflexivity|].
    left. auto. }
  destruct (Z.eqb_spec (om_header_type wasm hd) OM_HEADER_READ_TRAILER)
    as [E2|N2]; [|auto].
  destruct (count backend) as [n|msg] eqn:Ec; [|auto].
  destruct (getBytes backend (n - trailerSize) trailerSize) as [td|msg] eqn:Et;
    [|auto].
  destruct (om_trailer_read wasm td) as [[o s]|] eqn:Er; [|auto].
  destruct (getBytes backend o s) as [vd|msg] eqn:Ev; [|auto].
  exists hd, vd, (Some (mkOffsetSize o s)). cbn.
  split; [reflexivity|]. split; [reflexivity|]. right.
  split; [exact E2|]. exists n, td, o, s. auto.
Qed.

(** X3. What [initialize] does is decided by the backend and the codec
    alone: started from any two states of a reader it has the same
    outcome and issues the same requests, it never writes the output
    array, and when it succeeds it leaves the same reader. So a reader
    can be initialized again, also after [dispose], with the result of a
    first initialization. *)
Theorem initialize_forgets_the_past w1 w2 :
  fst (initialize wasm backend w1) = fst (initialize wasm backend w2)
  /\ (exists requests,
        calls (snd (initialize wasm backend w1)) = calls w1 ++ requests
        /\ calls (snd (initialize wasm backend w2)) = calls w2 ++ requests)
  /\ output (snd (initialize wasm backend w1)) = output w1
  /\ (forall u, fst (initialize wasm backend w1) = Returned u ->
        this (snd (initialize wasm backend w1))
        = this (snd (initialize wasm backend w2))).
Proof.
  unfold initialize, await_getBytes, await_count, get_this, set_this,
    throw, ret, log, bind.
  destruct (getBytes backend 0 (om_header_size wasm)) as [hd|msg].
  2:{ cbn. repeat split; [eauto|discriminate]. }
  destruct (om_header_type wasm hd =? OM_HEADER_INVALID).
  { cbn. repeat split; [eauto|discriminate]. }
  destruct (om_header_type wasm hd =? OM_HEADER_LEGACY).
  { cbn. repeat split; eauto. }
  destruct (om_header_type wasm hd =? OM_HEADER_READ_TRAILER).
  2:{ cbn. repeat split; [eauto|discriminate]. }
  destruct (count backend) as [n|msg].
  2:{ cbn. rewrite <- !app_assoc. repeat split; [eauto|discriminate]. }
  destruct (getBytes backend (n - om_trailer_size wasm) (om_trailer_size wasm))
    as [td|msg].
  2:{ cbn. rewrite <- !app_assoc. repeat split; [eauto|discriminate]. }
  destruct (om_trailer_read wasm td) as [[o s]|].
  2:{ cbn. rewrite <- !app_assoc. repeat split; [eauto|discriminate]. }
  destruct (getBytes backend o s) as [vd|msg]; cbn; rewrite <- !app_assoc;
    repeat split; eauto; discriminate.
Qed.


(** ** Children *)

(** X4. [getChild] leaves the reader and the output array alone and
    ends in one of four ways: "Reader not initialized" with no request;
    [null] with no request, when the codec's lookup fails; a backend
    error after the one request for the looked-up location; or a child
    reader after that same one request, initialized from the fetched
    bytes and located at the looked-up (offset, size). *)
Theorem getChild_outcomes w index :
  match getChild wasm backend index w with
  | (Returned None, w') =>
      w' = w
      /\ exists v, variable (this w) = Some v
                   /\ om_variable_get_children wasm v index 1 = None
  | (Returned (Some child), w') =>
      exists v o s data,
        variable (this w) = Some v
        /\ om_variable_get_children wasm v index 1 = Some (o, s)
        /\ getBytes backend o s = Resolved data
        /\ child = mkReader (Some (om_variable_init wasm data)) (Some data)
                            (Some data) (Some (mkOffsetSize o s))
        /\ w' = mkWorld (this w) (output w) (calls w ++ [GetBytes o s])
  | (Thrown e, w') =>
      (e = ReaderNotInitialized /\ w' = w)
      \/ (exists o s msg,
            e = BackendError msg
            /\ getBytes backend o s = Rejected msg
            /\ w' = mkWorld (this w) (output w) (calls w ++ [GetBytes o s]))
  | (OutOfFuel, _) => False
  end.
Proof.
  unfold getChild, require_variable, initChildFromOffsetSize,
    await_getBytes, get_this, ret, throw, log, bind.
  destruct (variable (this w)) as [v|] eqn:Hv; [|auto].
  destruct (om_variable_get_children wasm v index 1) as [[o s]|] eqn:Hc;
    [|eauto].
  cbn [offset size].
  destruct (getBytes backend o s) as [data|msg] eqn:Hg.
  - exists v, o, s, data. auto.
  - right. exists o, s, msg. auto.
Qed.

(** ** Scalar values *)

Lemma unsigned_le_bound n : forall b,
  0 <= unsigned_le n b < 2 ^ (8 * Z.of_nat n).
Proof.
  induction n as [|n IH]; intros b; [cbn; lia|].
  replace (8 * Z.of_nat (S n)) with (8 + 8 * Z.of_nat n) by lia.
  rewrite Z.pow_add_r by lia. change (2 ^ 8) with 256.
  cbn [unsigned_le]. destruct b as [|x b].
  - assert (0 < 2 ^ (8 * Z.of_nat n)) by (apply Z.pow_pos_nonneg; lia). lia.
  - specialize (IH b).
    assert (0 <= Z.of_N (Byte.to_N x) < 256).
    { pose proof (Byte.to_N_bounded x). lia. }
    nia.
Qed.

Lemma signed_then_reduced u m :
  0 <= u < m ->
  (if u <? m / 2 then u else u - m) mod m = u.
Proof.
  intros H. destruct (u <? m / 2).
  - apply Z.mod_small. lia.
  - symmetry. apply (Z.mod_unique _ _ (-1)); lia.
Qed.

Lemma signed_range u h :
  0 <= u < 2 * h ->
  - h <= (if u <? h then u else u - 2 * h) < h.
Proof. intros H. destruct (Z.ltb_spec u h); lia. Qed.

(** X5. When the codec hands out the payload [d] of a scalar of the
    expected type, [readScalar] returns for Uint8, Uint16 and Uint32 the
    unsigned little-endian value of the first 1, 2 and 4 bytes of [d]
    (the mask undoes the sign of the signed read), within [0, 2^8),
    [0, 2^16) and [0, 2^32); for Int8, Int16 and Int32 it returns the
    two's-complement value of those bytes, within [-2^7, 2^7),
    [-2^15, 2^15) and [-2^31, 2^31). *)
Theorem readScalar_integer_values w v d :
  variable (this w) = Some v ->
  om_variable_get_scalar wasm v = (ERROR_OK, Some d) ->
  let unsigned dataType_ n :=
    om_variable_get_type wasm v = dataType_ ->
    readScalar wasm dataType_ w = (Returned (Some (SInt (unsigned_le n d))), w)
    /\ 0 <= unsigned_le n d < 2 ^ (8 * Z.of_nat n) in
  let signed dataType_ n :=
    om_variable_get_type wasm v = dataType_ ->
    exists z,
      readScalar wasm dataType_ w = (Returned (Some (SInt z)), w)
      /\ - 2 ^ (8 * Z.of_nat n - 1) <= z < 2 ^ (8 * Z.of_nat n - 1)
      /\ z mod 2 ^ (8 * Z.of_nat n) = unsigned_le n d in
  unsigned DATA_TYPE_UINT8 1%nat /\ unsigned DATA_TYPE_UINT16 2%nat
  /\ unsigned DATA_TYPE_UINT32 4%nat
  /\ signed DATA_TYPE_INT8 1%nat /\ signed DATA_TYPE_INT16 2%nat
  /\ signed DATA_TYPE_INT32 4%nat.
Proof.
  intros Hv Hs unsigned signed.
  assert (Hrun : forall dataType_,
            om_variable_get_type wasm v = dataType_ ->
            readScalar wasm dataType_ w = (Returned (scalar_of dataType_ d), w)).
  { intros dataType_ Ht. unfold readScalar, bind.
    rewrite (require_variable_some wasm w v Hv), (dataType_some wasm w v Hv).
    rewrite Ht, Z.eqb_refl, Hs. reflexivity. }
  pose proof (unsigned_le_bound 1 d) as B1.
  pose proof (unsigned_le_bound 2 d) as B2.
  pose proof (unsigned_le_bound 4 d) as B4.
  unfold unsigned, signed. split; [|split; [|split; [|split; [|split]]]].
  - intros Ht. split; [|exact B1].
    rewrite (Hrun _ Ht). unfold scalar_of, getValue_int.
    cbn [Z.eqb DATA_TYPE_UINT8 DATA_TYPE_INT8 Pos.eqb].
    change 255 with (Z.ones 8). rewrite Z.land_ones by lia.
    change (2 ^ (8 * Z.of_nat 1)) with 256 in *. change (2 ^ 8) with 256.
    now rewrite (signed_then_reduced _ 256) by exact B1.
  - intros Ht. split; [|exact B2].
    rewrite (Hrun _ Ht). unfold scalar_of, getValue_int.
    cbn [Z.eqb DATA_TYPE_UINT16 DATA_TYPE_INT8 DATA_TYPE_UINT8
         DATA_TYPE_INT16 Pos.eqb].
    change 65535 with (Z.ones 16). rewrite Z.land_ones by lia.
    change (2 ^ (8 * Z.of_nat 2)) with 65536 in *. change (2 ^ 16) with 65536.
    now rewrite (signed_then_reduced _ 65536) by exact B2.
  - intros Ht. split; [|exact B4].
    rewrite (Hrun _ Ht). unfold scalar_of, getValue_int.
    cbn [Z.eqb DATA_TYPE_UINT32 DATA_TYPE_INT8 DATA_TYPE_UINT8
         DATA_TYPE_INT16 DATA_TYPE_UINT16 DATA_TYPE_INT32 Pos.eqb].
    change (2 ^ (8 * Z.of_nat 4)) with 4294967296 in *.
    change (2 ^ 32) with 4294967296.
    now rewrite (signed_then_reduced _ 4294967296) by exact B4.
  - intros Ht. eexists. split; [rewrite (Hrun _ Ht); reflexivity|].
    unfold getValue_int. change (2 ^ (8 * Z.of_nat 1)) with 256.
    change (2 ^ (8 * Z.of_nat 1 - 1)) with 128. change (256 / 2) with 128.
    split; [apply (signed_range _ 128); lia|].
    apply (signed_then_reduced _ 256). lia.
  - intros Ht. eexists. split; [rewrite (Hrun _ Ht); reflexivity|].
    unfold getValue_int. change (2 ^ (8 * Z.of_nat 2)) with 65536.
    change (2 ^ (8 * Z.of_nat 2 - 1)) with 32768.
    change (65536 / 2) with 32768.
    split; [apply (signed_range _ 32768); lia|].
    apply (signed_then_reduced _ 65536). lia.
  - intros Ht. eexists. split; [rewrite (Hrun _ Ht); reflexivity|].
    unfold getValue_int. change (2 ^ (8 * Z.of_nat 4)) with 4294967296.
    change (2 ^ (8 * Z.of_nat 4 - 1)) with 2147483648.
    change (4294967296 / 2) with 2147483648.
    split; [apply (signed_range _ 2147483648); lia|].
    apply (signed_then_reduced _ 4294967296). lia.
Qed.

(** X6. [readScalar] yields a value only for the eight types of its
    [switch] (Int8, Uint8, Int16, Uint16, Int32, Uint32, Float, Double):
    for every other expected type -- Int64, Uint64, String, every array
    type, None, any other number -- an initialized reader returns
    [null], whatever the variable holds. *)
Theorem readScalar_other_types_are_null w v dataType_ :
  variable (this w) = Some v ->
  ~ In dataType_ [DATA_TYPE_INT8; DATA_TYPE_UINT8; DATA_TYPE_INT16;
                  DATA_TYPE_UINT16; DATA_TYPE_INT32; DATA_TYPE_UINT32;
                  DATA_TYPE_FLOAT; DATA_TYPE_DOUBLE] ->
  readScalar wasm dataType_ w = (Returned None, w).
Proof.
  intros Hv Hnot. unfold readScalar, bind.
  rewrite (require_variable_some wasm w v Hv), (dataType_some wasm w v Hv).
  destruct (om_variable_get_type wasm v =? dataType_); [|reflexivity].
  destruct (om_variable_get_scalar wasm v) as [error data].
  destruct (error =? ERROR_OK); [|reflexivity].
  destruct data as [d|]; [|reflexivity].
  cbn [negb]. unfold ret. do 2 f_equal. unfold scalar_of.
  repeat match goal with
         | |- context [?a =? ?b] =>
             destruct (Z.eqb_spec a b) as [->|?];
             [exfalso; apply Hnot; cbn; tauto|]
         end.
  reflexivity.
Qed.


(** ** What a read leaves behind *)

(** The loops' outcome and requests do not depend on the world they
    start in, and they touch neither [this] nor the output array. *)
Lemma data_read_loop_frame fuel :
  forall decoder dataRead indexData indexCount s,
  exists o requests, forall w,
    data_read_loop wasm backend fuel decoder dataRead indexData indexCount s w
    = (o, mkWorld (this w) (output w) (calls w ++ requests)).
Proof.
  induction fuel as [|fuel IH]; intros.
  { exists OutOfFuel, []. intros [r a l]. cbn. now rewrite app_nil_r. }
  cbn [data_read_loop].
  destruct (om_decoder_next_data_read wasm decoder dataRead indexData
              indexCount (errorCell s)) as [[more dataRead'] error'].
  destruct more.
  - unfold bind, await_getBytes, log.
    destruct (getBytes backend (dr_offset dataRead') (dr_count dataRead'))
      as [dataBlock|msg].
    + destruct (om_decoder_decode_chunks wasm decoder (dr_chunkIndex dataRead')
                  dataBlock (dr_count dataRead') (outputMem s) (chunkBuffer s)
                  error') as [[[success out'] cb'] error''].
      destruct success.
      * destruct (IH decoder dataRead' indexData indexCount
                    (mkScratch out' cb' error'')) as (o & requests & H).
        exists o, (GetBytes (dr_offset dataRead') (dr_count dataRead')
                   :: requests).
        intros w. rewrite H. cbn. now rewrite <- app_assoc.
      * eexists _, _. intros w. reflexivity.
    + eexists _, _. intros w. reflexivity.
  - destruct (error' =? ERROR_OK); cbn [negb]; eexists _, [];
      intros [r a l]; cbn; now rewrite app_nil_r.
Qed.

Lemma index_read_loop_frame fuel :
  forall decoder indexRead s,
  exists o requests, forall w,
    index_read_loop wasm backend fuel decoder indexRead s w
    = (o, mkWorld (this w) (output w) (calls w ++ requests)).
Proof.
  induction fuel as [|fuel IH]; intros.
  { exists OutOfFuel, []. intros [r a l]. cbn. now rewrite app_nil_r. }
  cbn [index_read_loop].
  destruct (om_decoder_next_index_read wasm decoder indexRead)
    as [more indexRead'].
  destruct more.
  2:{ eexists _, []. intros [r a l]. cbn. now rewrite app_nil_r. }
  unfold bind, await_getBytes, log.
  destruct (getBytes backend (ir_offset indexRead') (ir_count indexRead'))
    as [indexData|msg].
  2:{ eexists _, _. intros w. reflexivity. }
  destruct (data_read_loop_frame fuel decoder (newDataRead wasm indexRead')
              indexData (ir_count indexRead') s) as (o1 & d1 & H1).
  destruct o1 as [s'|e|].
  - destruct (IH decoder indexRead' s') as (o2 & d2 & H2).
    exists o2, (GetBytes (ir_offset indexRead') (ir_count indexRead')
                :: d1 ++ d2).
    intros w. rewrite H1, H2. cbn. now rewrite <- !app_assoc.
  - exists (Thrown e),
      (GetBytes (ir_offset indexRead') (ir_count indexRead') :: d1).
    intros w. rewrite H1. cbn. now rewrite <- !app_assoc.
  - exists OutOfFuel,
      (GetBytes (ir_offset indexRead') (ir_count indexRead') :: d1).
    intros w. rewrite H1. cbn. now rewrite <- !app_assoc.
Qed.

Lemma view_length a (source : bytes) :
  let n := (ta_length a * BYTES_PER_ELEMENT (ctor a))%nat in
  length (resize n Byte.x00 source ++ drop n (buffer a)) = byteLength a.
Proof.
  intros n. rewrite length_app, length_resize, length_drop.
  assert (n <= length (buffer a))%nat; [|unfold byteLength; lia].
  unfold n, ta_length, byteLength. rewrite Nat.mul_comm.
  apply Nat.Div0.mul_div_le.
Qed.

(** [decode] replaces the output array by one of the same constructor
    and byte length when it succeeds, and leaves it alone otherwise. *)
Lemma decode_shape fuel decoder w :
  let run := decode wasm backend fuel decoder w in
  this (snd run) = this w
  /\ ctor (output (snd run)) = ctor (output w)
  /\ byteLength (output (snd run)) = byteLength (output w)
  /\ (forall e, fst run = Thrown e -> output (snd run) = output w).
Proof.
  cbv zeta.
  pose proof (decode_with_output wasm backend fuel decoder (output w) w) as E.
  rewrite with_output_self in E. cbv zeta in E.
  destruct (index_read_loop_frame fuel decoder (newIndexRead wasm decoder)
              (mkScratch (_malloc wasm (Z.of_nat (byteLength (output w))))
                 (_malloc wasm (om_decoder_read_buffer_size wasm decoder))
                 ERROR_OK)) as (o & requests & H).
  rewrite H in E. rewrite E.
  destruct o as [s|e|]; cbn [fst snd this output with_output ctor];
    repeat split; try discriminate.
  unfold byteLength at 1. cbn [buffer]. apply view_length.
Qed.

(** X7. [readInto] writes the caller's array only when it succeeds:
    whenever it throws, for whatever reason and however far the decoding
    went, the array is exactly as the caller passed it. When it succeeds
    the array keeps its constructor and its byte length. In no case is
    the reader itself changed. *)
Theorem readInto_writes_only_on_success
    w fuel dataType_ dimRanges ioSizeMax ioSizeMerge :
  let run :=
    readInto wasm backend fuel dataType_ dimRanges ioSizeMax ioSizeMerge w in
  this (snd run) = this w
  /\ ctor (output (snd run)) = ctor (output w)
  /\ byteLength (output (snd run)) = byteLength (output w)
  /\ (forall e, fst run = Thrown e -> output (snd run) = output w).
Proof.
  intros run. unfold run. clear run.
  destruct (variable (this w)) as [v|] eqn:Hv.
  2:{ unfold readInto, bind. rewrite (require_variable_none wasm w Hv).
      cbn. auto. }
  destruct (Z.eq_dec (om_variable_get_type wasm v) dataType_) as [<-|Hne].
  2:{ apply Z.eqb_neq in Hne. unfold readInto, bind.
      rewrite (require_variable_some wasm w v Hv),
        (dataType_some wasm w v Hv), Hne.
      cbn. auto. }
  rewrite (readInto_checks wasm backend w v fuel dimRanges ioSizeMax
             ioSizeMerge Hv).
  cbv zeta.
  destruct (negb (_ =? _)%nat); [cbn; auto|].
  destruct (_ <? _); [cbn; auto|].
  destruct (first_invalid_range 0 dimRanges _) as [[i r]|]; [cbn; auto|].
  destruct (om_decoder_init wasm v _ _ _ _ _ _ _) as [error decoder].
  destruct (negb (error =? ERROR_OK)); [cbn; auto|].
  apply decode_shape.
Qed.

(** [readInto] on a given reader and a given output array: the
    outcome, the array afterwards and the requests do not depend on the
    requests made before. *)
Lemma readInto_frame (r : OmFileReader wasm) (a : TypedArray)
    fuel dataType_ dimRanges ioSizeMax ioSizeMerge :
  exists o a' requests, forall w,
    this w = r -> output w = a ->
    readInto wasm backend fuel dataType_ dimRanges ioSizeMax ioSizeMerge w
    = (o, mkWorld r a' (calls w ++ requests)).
Proof.
  assert (Hstay : forall o, exists o' a' requests, forall w,
            this w = r -> output w = a ->
            (o, w) = (o', mkWorld r a' (calls w ++ requests))
                     :> Outcome unit * World wasm).
  { intros o. exists o, a, []. intros [r0 a0 l] <- <-. cbn.
    now rewrite app_nil_r. }
  destruct (variable r) as [v|] eqn:Hv.
  2:{ destruct (Hstay (Thrown ReaderNotInitialized)) as (o & a' & d & H).
      exists o, a', d. intros w Hr Ha. rewrite <- (H w Hr Ha).
      unfold readInto, bind. rewrite require_variable_none; [reflexivity|].
      now rewrite Hr. }
  destruct (Z.eq_dec (om_variable_get_type wasm v) dataType_) as [<-|Hne].
  2:{ apply Z.eqb_neq in Hne.
      destruct (Hstay (Thrown (InvalidDataType (om_variable_get_type wasm v)
                                 dataType_))) as (o & a' & d & H).
      exists o, a', d. intros w Hr Ha. rewrite <- (H w Hr Ha).
      assert (Hv' : variable (this w) = Some v) by now rewrite Hr.
      unfold readInto, bind.
      now rewrite (require_variable_some wasm w v Hv'),
        (dataType_some wasm w v Hv'), Hne. }
  assert (Hrun : forall w, this w = r -> output w = a ->
    readInto wasm backend fuel (om_variable_get_type wasm v) dimRanges
             ioSizeMax ioSizeMerge w =
    if negb (length (om_variable_get_dimensions wasm v) =? length dimRanges)%nat
    then (Thrown (MismatchedDimensions
                    (length (om_variable_get_dimensions wasm v))
                    (length dimRanges)), w)
    else if Z.of_nat (ta_length a) <? totalElements dimRanges then
      (Thrown (OutputTooSmall (totalElements dimRanges) (ta_length a)), w)
    else
      match first_invalid_range 0 dimRanges
              (om_variable_get_dimensions wasm v) with
      | Some (i, rg) => (Thrown (InvalidRange i rg), w)
      | None =>
          let '(error, decoder) :=
            om_decoder_init wasm v (Z.of_nat (length dimRanges))
              (map start dimRanges) (outDims dimRanges)
              (replicate (length dimRanges) 0) (outDims dimRanges)
              ioSizeMerge ioSizeMax in
          if negb (error =? ERROR_OK) then (Thrown (DecoderInitFailed error), w)
          else decode wasm backend fuel decoder (with_output wasm a w)
      end).
  { intros w Hr Ha.
    assert (Hv' : variable (this w) = Some v) by now rewrite Hr.
    rewrite (readInto_checks wasm backend w v fuel dimRanges ioSizeMax
               ioSizeMerge Hv').
    cbv zeta.
    replace (with_output wasm a w) with w
      by (now rewrite <- Ha, with_output_self).
    now rewrite Ha. }
  destruct (negb (_ =? _)%nat) eqn:E1.
  { destruct (Hstay (Thrown (MismatchedDimensions
                    (length (om_variable_get_dimensions wasm v))
                    (length dimRanges)))) as (o & a' & d & H).
    exists o, a', d. intros w Hr Ha. now rewrite (Hrun w Hr Ha), (H w Hr Ha). }
  destruct (_ <? _) eqn:E2.
  { destruct (Hstay (Thrown (OutputTooSmall (totalElements dimRanges)
                               (ta_length a)))) as (o & a' & d & H).
    exists o, a', d. intros w Hr Ha. now rewrite (Hrun w Hr Ha), (H w Hr Ha). }
  destruct (first_invalid_range 0 dimRanges _) as [[i rg]|] eqn:E3.
  { destruct (Hstay (Thrown (InvalidRange i rg))) as (o & a' & d & H).
    exists o, a', d. intros w Hr Ha. now rewrite (Hrun w Hr Ha), (H w Hr Ha). }
  destruct (om_decoder_init wasm v _ _ _ _ _ _ _) as [error decoder] eqn:E4.
  destruct (negb (error =? ERROR_OK)) eqn:E5.
  { destruct (Hstay (Thrown (DecoderInitFailed error))) as (o & a' & d & H).
    exists o, a', d. intros w Hr Ha. now rewrite (Hrun w Hr Ha), (H w Hr Ha). }
  destruct (index_read_loop_frame fuel decoder (newIndexRead wasm decoder)
              (mkScratch (_malloc wasm (Z.of_nat (byteLength a)))
                 (_malloc wasm (om_decoder_read_buffer_size wasm decoder))
                 ERROR_OK)) as (o & requests & H).
  destruct o as [s|e|].
  - eexists (Returned tt), _, requests. intros w Hr Ha.
    rewrite (Hrun w Hr Ha), decode_with_output. cbv zeta. rewrite H, <- Hr.
    reflexivity.
  - exists (Thrown e), a, requests. intros w Hr Ha.
    rewrite (Hrun w Hr Ha), decode_with_output. cbv zeta. rewrite H, <- Hr.
    reflexivity.
  - exists OutOfFuel, a, requests. intros w Hr Ha.
    rewrite (Hrun w Hr Ha), decode_with_output. cbv zeta. rewrite H, <- Hr.
    reflexivity.
Qed.

(** The same for [read], whatever the output array was before. *)
Lemma read_frame (r : OmFileReader wasm)
    fuel dataType_ dimRanges ioSizeMax ioSizeMerge :
  exists o requests, forall w,
    this w = r ->
    exists a',
      read wasm backend js fuel dataType_ dimRanges ioSizeMax ioSizeMerge w
      = (o, mkWorld r a' (calls w ++ requests)).
Proof.
  assert (Hstay : forall e, exists (o : Outcome TypedArray) requests, forall w,
            this w = r ->
            exists a', (Thrown e, w) = (o, mkWorld r a' (calls w ++ requests))).
  { intros e. exists (Thrown e), []. intros [r0 a0 l] <-. exists a0. cbn.
    now rewrite app_nil_r. }
  destruct (variable r) as [v|] eqn:Hv.
  2:{ destruct (Hstay ReaderNotInitialized) as (o & d & H).
      exists o, d. intros w Hr. destruct (H w Hr) as (a' & E). exists a'. rewrite <- E.
      unfold read, bind. rewrite require_variable_none; [reflexivity|].
      now rewrite Hr. }
  destruct (Z.eq_dec (om_variable_get_type wasm v) dataType_) as [<-|Hne].
  2:{ apply Z.eqb_neq in Hne.
      destruct (Hstay (InvalidDataType (om_variable_get_type wasm v)
                         dataType_)) as (o & d & H).
      exists o, d. intros w Hr. destruct (H w Hr) as (a' & E). exists a'. rewrite <- E.
      assert (Hv' : variable (this w) = Some v) by now rewrite Hr.
      unfold read, bind.
      now rewrite (require_variable_some wasm w v Hv'),
        (dataType_some wasm w v Hv'), Hne. }
  destruct (output_ctor (om_variable_get_type wasm v)) as [c|] eqn:Hc.
  2:{ destruct (Hstay UnsupportedDataType) as (o & d & H).
      exists o, d. intros w Hr. destruct (H w Hr) as (a' & E). exists a'. rewrite <- E.
      assert (Hv' : variable (this w) = Some v) by now rewrite Hr.
      unfold read, bind.
      now rewrite (require_variable_some wasm w v Hv'),
        (dataType_some wasm w v Hv'), Z.eqb_refl, Hc. }
  destruct (granted js c (totalElements dimRanges)) eqn:Hgranted.
  2:{ destruct (Hstay RangeError) as (o & d & H).
      exists o, d. intros w Hr. destruct (H w Hr) as (a' & E). exists a'.
      rewrite <- E.
      assert (Hv' : variable (this w) = Some v) by now rewrite Hr.
      rewrite (read_checks wasm backend js w v fuel dimRanges ioSizeMax
                 ioSizeMerge c Hv' Hc).
      now rewrite Hgranted. }
  destruct (readInto_frame r
              (new_array c (Z.to_nat (totalElements dimRanges)))
              fuel (om_variable_get_type wasm v) dimRanges ioSizeMax
              ioSizeMerge) as (o & a' & requests & H).
  exists (match o with
          | Returned _ => Returned a'
          | Thrown e => Thrown e
          | OutOfFuel => OutOfFuel
          end), requests.
  intros w Hr. exists a'.
  assert (Hv' : variable (this w) = Some v) by now rewrite Hr.
  rewrite (read_checks wasm backend js w v fuel dimRanges ioSizeMax
             ioSizeMerge c Hv' Hc).
  rewrite Hgranted.
  cbv zeta. rewrite (H (with_output wasm _ w)); [|exact Hr|reflexivity].
  now destruct o.
Qed.

(** X8. [read] changes nothing that a later [read] depends on: it leaves
    the reader as it is, and the same request made again right after has
    the same outcome -- the same array, element for element, or the same
    error -- and issues the same backend requests once more. *)
Theorem read_is_repeatable w fuel dataType_ dimRanges ioSizeMax ioSizeMerge :
  let first :=
    read wasm backend js fuel dataType_ dimRanges ioSizeMax ioSizeMerge w in
  let second :=
    read wasm backend js fuel dataType_ dimRanges ioSizeMax ioSizeMerge
         (snd first) in
  this (snd first) = this w
  /\ fst second = fst first
  /\ exists requests,
       calls (snd first) = calls w ++ requests
       /\ calls (snd second) = calls (snd first) ++ requests.
Proof.
  intros first second. unfold second, first. clear first second.
  destruct (read_frame (this w) fuel dataType_ dimRanges ioSizeMax ioSizeMerge)
    as (o & requests & H).
  destruct (H w eq_refl) as (a1 & H1). rewrite H1. cbn [fst snd].
  destruct (H (mkWorld (this w) a1 (calls w ++ requests)) eq_refl)
    as (a2 & H2).
  rewrite H2. cbn. eauto.
Qed.

(** ** Validation of the ranges *)

Lemma invalid_range_false r d :
  invalid_range r d = false <-> 0 <= start r /\ start r < end_ r /\ end_ r <= d.
Proof.
  unfold invalid_range.
  destruct (Z.ltb_spec (start r) 0), (Z.gtb_spec (end_ r) d),
    (Z.geb_spec (start r) (end_ r)); cbn; split; intros; try lia;
    discriminate.
Qed.

Lemma invalid_range_true r d :
  invalid_range r d = true <-> start r < 0 \/ end_ r > d \/ start r >= end_ r.
Proof.
  unfold invalid_range.
  destruct (Z.ltb_spec (start r) 0), (Z.gtb_spec (end_ r) d),
    (Z.geb_spec (start r) (end_ r)); cbn; split; intros; try lia;
    discriminate.
Qed.

Lemma first_invalid_range_some dimRanges : forall fileDims k i r,
  first_invalid_range k dimRanges fileDims = Some (i, r) ->
  exists j d,
    i = (k + j)%nat /\ dimRanges !! j = Some r /\ fileDims !! j = Some d
    /\ invalid_range r d = true
    /\ forall j' r' d',
         (j' < j)%nat -> dimRanges !! j' = Some r' -> fileDims !! j' = Some d' ->
         invalid_range r' d' = false.
Proof.
  induction dimRanges as [|r0 rs IH]; intros fileDims k i r; [discriminate|].
  destruct fileDims as [|d0 ds]; [discriminate|].
  cbn [first_invalid_range].
  destruct (invalid_range r0 d0) eqn:E0.
  - intros [= <- <-]. exists 0%nat, d0.
    split; [lia|]. split; [reflexivity|]. split; [reflexivity|].
    split; [exact E0|]. intros j' r' d' Hlt. lia.
  - intros H. destruct (IH ds (S k) i r H) as (j & d & -> & Hr & Hd & Hi & Hb).
    exists (S j), d.
    split; [lia|]. split; [exact Hr|]. split; [exact Hd|]. split; [exact Hi|].
    intros [|j'] r' d' Hlt; cbn.
    + intros [= <-] [= <-]. exact E0.
    + apply Hb. lia.
Qed.

Lemma first_invalid_range_none dimRanges : forall fileDims k,
  length dimRanges = length fileDims ->
  first_invalid_range k dimRanges fileDims = None ->
  Forall2 (fun r d => 0 <= start r /\ start r < end_ r /\ end_ r <= d)
          dimRanges fileDims.
Proof.
  induction dimRanges as [|r0 rs IH]; intros [|d0 ds] k Hlen; try discriminate.
  - constructor.
  - cbn [first_invalid_range].
    destruct (invalid_range r0 d0) eqn:E0; [discriminate|].
    intros H. constructor.
    + now apply invalid_range_false.
    + apply (IH ds (S k)); [now injection Hlen|exact H].
Qed.

Lemma first_invalid_range_valid dimRanges : forall fileDims k,
  Forall2 (fun r d => 0 <= start r /\ start r < end_ r /\ end_ r <= d)
          dimRanges fileDims ->
  first_invalid_range k dimRanges fileDims = None.
Proof.
  induction dimRanges as [|r0 rs IH]; intros fileDims k H;
    inversion H as [|? d0 ? ds Hb Hrest]; subst; [reflexivity|].
  cbn [first_invalid_range].
  apply invalid_range_false in Hb. rewrite Hb. now apply IH.
Qed.

Lemma totalElements_positive dimRanges fileDims :
  Forall2 (fun r d => 0 <= start r /\ start r < end_ r /\ end_ r <= d)
          dimRanges fileDims ->
  0 < totalElements dimRanges.
Proof.
  unfold totalElements, outDims. intros H.
  assert (G : forall a, 0 < a -> 0 < fold_left Z.mul
                (map (fun range => end_ range - start range) dimRanges) a).
  { revert fileDims H.
    induction dimRanges as [|r0 rs IH]; intros fileDims H a Ha; [exact Ha|].
    inversion H as [|? d0 ? ds Hb Hrest]; subst. cbn [map fold_left].
    apply (IH ds Hrest). nia. }
  apply G. lia.
Qed.

(** X9. When [readInto] throws "Invalid range for dimension i", the
    reader is initialized, the reported range is the request's range for
    dimension [i], that range breaks one of [start >= 0],
    [end <= extent], [start < end], and the ranges of all dimensions
    before [i] satisfy all three: the error names the first offending
    dimension. *)
Theorem invalid_range_names_first_offender
    w fuel dataType_ dimRanges ioSizeMax ioSizeMerge i r :
  fst (readInto wasm backend fuel dataType_ dimRanges ioSizeMax ioSizeMerge w)
    = Thrown (InvalidRange i r) ->
  exists v d,
    variable (this w) = Some v
    /\ dimRanges !! i = Some r
    /\ om_variable_get_dimensions wasm v !! i = Some d
    /\ (start r < 0 \/ end_ r > d \/ start r >= end_ r)
    /\ forall j rj dj,
         (j < i)%nat -> dimRanges !! j = Some rj ->
         om_variable_get_dimensions wasm v !! j = Some dj ->
         0 <= start rj /\ start rj < end_ rj /\ end_ rj <= dj.
Proof.
  destruct (variable (this w)) as [v|] eqn:Hv.
  2:{ unfold readInto, bind. rewrite (require_variable_none wasm w Hv).
      discriminate. }
  destruct (Z.eq_dec (om_variable_get_type wasm v) dataType_) as [<-|Hne].
  2:{ apply Z.eqb_neq in Hne. unfold readInto, bind.
      rewrite (require_variable_some wasm w v Hv),
        (dataType_some wasm w v Hv), Hne.
      discriminate. }
  rewrite (readInto_checks wasm backend w v fuel dimRanges ioSizeMax
             ioSizeMerge Hv).
  cbv zeta.
  destruct (negb (_ =? _)%nat); [discriminate|].
  destruct (_ <? _); [discriminate|].
  destruct (first_invalid_range 0 dimRanges _) as [[i0 r0]|] eqn:Ef.
  - intros [= <- <-].
    destruct (first_invalid_range_some _ _ _ _ _ Ef)
      as (j & d & -> & Hr & Hd & Hi & Hb).
    cbn [Nat.add]. exists v, d.
    split; [reflexivity|]. split; [exact Hr|]. split; [exact Hd|].
    split; [now apply invalid_range_true|].
    intros j' rj dj Hlt Hrj Hdj. apply invalid_range_false. eapply Hb; eauto.
  - destruct (om_decoder_init wasm v _ _ _ _ _ _ _) as [error decoder].
    destruct (negb (error =? ERROR_OK)); [discriminate|].
    intros H. destruct (decode_thrown wasm backend _ _ _ _ H); discriminate.
Qed.

(** X10. A request that passes validation reaches the decoder: on an
    initialized reader, for the variable's own type, ranges with
    [0 <= start < end <= extent] in every dimension and a buffer of at
    least the product of the extents -- which is then positive --
    [readInto] can only fail with a decoder error or a backend error. *)
Theorem valid_request_reaches_the_decoder
    w v fuel dimRanges ioSizeMax ioSizeMerge :
  variable (this w) = Some v ->
  Forall2 (fun r d => 0 <= start r /\ start r < end_ r /\ end_ r <= d)
          dimRanges (om_variable_get_dimensions wasm v) ->
  totalElements dimRanges <= Z.of_nat (ta_length (output w)) ->
  0 < totalElements dimRanges
  /\ forall e,
       fst (readInto wasm backend fuel (om_variable_get_type wasm v) dimRanges
                     ioSizeMax ioSizeMerge w) = Thrown e ->
       kind e = DecodeError \/ kind e = IOError.
Proof.
  intros Hv Hvalid Hbig. split; [eapply totalElements_positive; eauto|].
  intros e.
  rewrite (readInto_checks wasm backend w v fuel dimRanges ioSizeMax
             ioSizeMerge Hv).
  cbv zeta.
  rewrite <- (Forall2_length _ _ _ Hvalid), Nat.eqb_refl. cbn [negb].
  destruct (Z.ltb_spec (Z.of_nat (ta_length (output w)))
                       (totalElements dimRanges)); [lia|].
  rewrite (first_invalid_range_valid _ _ _ Hvalid).
  destruct (om_decoder_init wasm v _ _ _ _ _ _ _) as [error decoder].
  destruct (negb (error =? ERROR_OK)).
  - intros [= <-]. now left.
  - apply decode_thrown.
Qed.

(** X11. An array returned by [read] has the constructor that goes with
    the requested type and exactly as many elements as the product of
    the range extents, which is positive; the requested type is the
    variable's own and has an output constructor, and every range
    satisfies [0 <= start < end <= extent]. *)
Theorem read_result_shape
    w fuel dataType_ dimRanges ioSizeMax ioSizeMerge a w' :
  read wasm backend js fuel dataType_ dimRanges ioSizeMax ioSizeMerge w
    = (Returned a, w') ->
  exists v c,
    variable (this w) = Some v
    /\ om_variable_get_type wasm v = dataType_
    /\ output_ctor dataType_ = Some c
    /\ ctor a = c
    /\ 0 < totalElements dimRanges
    /\ ta_length a = Z.to_nat (totalElements dimRanges)
    /\ Forall2 (fun r d => 0 <= start r /\ start r < end_ r /\ end_ r <= d)
               dimRanges (om_variable_get_dimensions wasm v).
Proof.
  destruct (variable (this w)) as [v|] eqn:Hv.
  2:{ unfold read, bind. rewrite (require_variable_none wasm w Hv).
      discriminate. }
  destruct (Z.eq_dec (om_variable_get_type wasm v) dataType_) as [<-|Hne].
  2:{ apply Z.eqb_neq in Hne. unfold read, bind.
      rewrite (require_variable_some wasm w v Hv),
        (dataType_some wasm w v Hv), Hne.
      discriminate. }
  destruct (output_ctor (om_variable_get_type wasm v)) as [c|] eqn:Hc.
  2:{ unfold read, bind.
      rewrite (require_variable_some wasm w v Hv),
        (dataType_some wasm w v Hv), Z.eqb_refl, Hc.
      discriminate. }
  rewrite (read_checks wasm backend js w v fuel dimRanges ioSizeMax
             ioSizeMerge c Hv Hc).
  destruct (granted js c (totalElements dimRanges)); [|discriminate].
  cbv zeta.
  set (a0 := new_array c (Z.to_nat (totalElements dimRanges))).
  assert (Hv0 : variable (this (with_output wasm a0 w)) = Some v) by exact Hv.
  rewrite (readInto_checks wasm backend _ v fuel dimRanges ioSizeMax
             ioSizeMerge Hv0).
  cbv zeta.
  destruct (Nat.eqb_spec (length (om_variable_get_dimensions wasm v))
                         (length dimRanges)) as [Hlen|]; [|discriminate].
  cbn [negb].
  destruct (_ <? _); [discriminate|].
  destruct (first_invalid_range 0 dimRanges _) as [[i r]|] eqn:Ef;
    [discriminate|].
  pose proof (first_invalid_range_none _ _ _ (eq_sym Hlen) Ef) as Hvalid.
  destruct (om_decoder_init wasm v _ _ _ _ _ _ _) as [error decoder].
  destruct (negb (error =? ERROR_OK)); [discriminate|].
  destruct (decode_shape fuel decoder (with_output wasm a0 w))
    as (_ & Hctor & Hlength & _).
  cbv zeta in Hctor, Hlength.
  destruct (decode wasm backend fuel decoder (with_output wasm a0 w))
    as [[u|e|] w1]; cbn [fst snd] in *; try discriminate.
  intros [= <- <-]. exists v, c. repeat split; auto.
  - eapply totalElements_positive; eauto.
  - apply (sized_array_length (output w1) c); [exact Hctor|].
    rewrite Hlength. unfold a0, new_array, byteLength.
    cbn [buffer output with_output]. now rewrite length_replicate.
Qed.

(** ** Requests of the tree walk *)

(** In the tree of a file every node below the root has a location. *)
Lemma file_tree_located depth : forall v location t,
  file_tree wasm backend js depth v location = Some t ->
  children_located t = true.
Proof.
  induction depth as [|depth IH]; intros v location t H; [discriminate|].
  cbn [file_tree] in H.
  destruct (mapM _ _) as [tss|] eqn:Et; [|discriminate].
  injection H as <-. cbn [children_located].
  apply mapM_Some in Et. apply forallb_forall. intros child Hin.
  apply in_concat in Hin as (ts & Hts & Hchild).
  apply list_elem_of_In in Hts.
  destruct (list_elem_of_lookup_1 _ _ Hts) as [j Hj].
  destruct (Forall2_lookup_r _ _ _ j ts Et Hj) as (i & _ & Hi).
  unfold child_tree in Hi.
  destruct (om_variable_get_children wasm v (Z.of_nat i) 1) as [[o s]|].
  2:{ injection Hi as <-. destruct Hchild. }
  destruct (getBytes backend o s) as [data|msg]; [|discriminate].
  destruct (file_tree wasm backend js depth (om_variable_init wasm data) _)
    as [t0|] eqn:E0; [|discriminate].
  injection Hi as <-. destruct Hchild as [<-|[]].
  destruct (file_tree_root wasm backend js _ _ _ _ E0) as [children ->].
  exact (IH _ _ _ E0).
Qed.

(** One request for each node below the root, and none for the size of
    the file. *)
Lemma located_requests : forall t,
  children_located t = true ->
  length (walk_requests t) = descendants t
  /\ ~ In Count (walk_requests t).
Proof.
  fix IHt 1. intros [name location children].
  cbn [children_located walk_requests descendants].
  induction children as [|child children IHc];
    [intros _; split; [reflexivity|intros []]|].
  cbn [forallb flat_map fold_right]. intros H.
  apply andb_true_iff in H as [Hchild Hrest].
  destruct (IHc Hrest) as [Hlen Hnot].
  pose proof (IHt child) as IHchild.
  destruct child as [cname [os|] cchildren]; [|discriminate].
  destruct (IHchild Hchild) as [Hlen1 Hnot1].
  split.
  - rewrite !length_app, Hlen, Hlen1. reflexivity.
  - rewrite !in_app_iff. intros [[[Hc|[]]|Hc]|Hc];
      [discriminate|exact (Hnot1 Hc)|exact (Hnot Hc)].
Qed.

(** X12. The tree walk returns only over a reader that is initialized
    and a file whose tree [file_tree] -- every child the codec's table
    locates, read from the backend at that location -- can be read
    within the fuel. The record returned then holds that tree's
    "path -> location" entries on top of the entries it started with,
    and the backend was asked for exactly one [getBytes] per node below
    the root, at that node's location, a node before its children and
    siblings in index order; the root itself is not fetched and the file
    size is never asked for. The reader and the output array are
    unchanged. *)
Theorem walk_fetches_every_child_once fuel path result w flat w' :
  collectVariableMetadata wasm backend js fuel path result w
    = (Returned flat, w') ->
  exists v t,
    variable (this w) = Some v
    /\ file_tree wasm backend js fuel v (offsetSize (this w)) = Some t
    /\ flat = record_all (flat_entries path t) result
    /\ w' = mkWorld (this w) (output w) (calls w ++ walk_requests t)
    /\ children_located t = true
    /\ length (walk_requests t) = descendants t
    /\ ~ In Count (walk_requests t).
Proof.
  intros H.
  destruct (variable (this w)) as [v|] eqn:Hv.
  2:{ destruct fuel as [|fuel]; [discriminate|].
      cbn [collectVariableMetadata] in H. unfold getName, bind in H.
      rewrite (require_variable_none wasm w Hv) in H. discriminate. }
  pose proof (walk_follows_file_tree wasm backend js fuel path result w v Hv)
    as Hwalk.
  destruct (file_tree wasm backend js fuel v (offsetSize (this w)))
    as [t|] eqn:Et; unfold walks in Hwalk.
  2:{ destruct (Hwalk flat w' H). }
  rewrite Hwalk in H. injection H as <- <-.
  pose proof (file_tree_located _ _ _ _ Et) as Hl.
  destruct (located_requests t Hl) as [Hlen Hnot].
  exists v, t. repeat split; auto.
Qed.

(** ** The flat metadata of a reader without children *)

(** X18. [getFlatVariableMetadata] on a reader that is not initialized
    throws "Reader not initialized". On a variable without children it
    asks the backend for nothing. It returns an empty record when the
    name has size zero or the reader has no [offsetSize], as the root
    of a legacy file; otherwise a record whose one property is the
    decoded name with the reader's [offsetSize] -- unless that name is
    "__proto__", for which the record has no property and the
    [offsetSize] as its prototype. *)
Theorem flat_metadata_without_children w fuel :
  (variable (this w) = None ->
   getFlatVariableMetadata wasm backend js (S fuel) w
   = (Thrown ReaderNotInitialized, w))
  /\ (forall v,
        variable (this w) = Some v ->
        om_variable_get_children_count wasm v <= 0 ->
        getFlatVariableMetadata wasm backend js (S fuel) w
        = (Returned
             (match node_name wasm js v, offsetSize (this w) with
              | Some n, Some os =>
                  if String.eqb n "__proto__" then mkJsRecord ∅ (Some os)
                  else mkJsRecord {[n := os]} None
              | _, _ => empty_record
              end), w)).
Proof.
  split.
  - intros H. pose proof (require_variable_none wasm w H) as E.
    unfold getFlatVariableMetadata. cbn [collectVariableMetadata].
    unfold getName, bind. now rewrite E.
  - intros v H Hc.
    pose proof (walk_follows_file_tree wasm backend js (S fuel) []
                  empty_record w v H) as Hwalk.
    cbn [file_tree] in Hwalk.
    replace (Z.to_nat (om_variable_get_children_count wasm v)) with 0%nat
      in Hwalk by lia.
    cbn [seq mapM mbind option_bind mret option_ret concat] in Hwalk.
    unfold walks in Hwalk. unfold getFlatVariableMetadata. rewrite Hwalk.
    f_equal.
    + f_equal. cbn [flat_entries flat_map app].
      destruct (node_name wasm js v) as [n|]; [|reflexivity].
      destruct (offsetSize (this w)) as [os|]; [|reflexivity].
      rewrite app_nil_r. cbn [record_all fold_left fst snd app pathStr].
      unfold assign, empty_record, pathStr. cbn [String.concat own proto].
      now destruct (String.eqb n "__proto__").
    + destruct w. cbn. now rewrite app_nil_r.
Qed.

End WithModule.
End ReaderLaws.

(** * Properties of the backends *)

Module BackendFacts.
Import Reader ReaderFacts Backends.

(** ** [FileBackend] *)

(** X13. [FileBackend] over a buffer resolves [getBytes(offset, size)]
    exactly when [0 <= offset], [0 <= size] and
    [offset + size <= byteLength], and then with exactly [size] bytes,
    the buffer's bytes from [offset] on; the bytes of two adjacent ranges
    are the bytes of their union; [count] is the buffer's length. *)
Theorem FileBackend_serves_exact_ranges (data : bytes) :
  let backend := FileBackend data in
  let byteLength := Z.of_nat (length data) in
  count backend = Resolved byteLength
  /\ (forall offset size,
        match getBytes backend offset size with
        | Resolved b =>
            0 <= offset /\ 0 <= size /\ offset + size <= byteLength
            /\ Z.of_nat (length b) = size
            /\ forall i, (i < length b)%nat ->
                         b !! i = data !! (Z.to_nat offset + i)%nat
        | Rejected _ => offset < 0 \/ size < 0 \/ byteLength < offset + size
        end)
  /\ (forall offset size1 size2 b1 b2,
        getBytes backend offset size1 = Resolved b1 ->
        getBytes backend (offset + size1) size2 = Resolved b2 ->
        getBytes backend offset (size1 + size2) = Resolved (b1 ++ b2)).
Proof.
  intros backend byteLength. unfold backend, FileBackend. cbn [getBytes count].
  fold byteLength. split; [reflexivity|]. split.
  - intros offset size.
    destruct (Z.ltb_spec offset 0); cbn [orb]; [lia|].
    destruct (Z.gtb_spec offset byteLength); cbn [orb]; [lia|].
    destruct (Z.ltb_spec size 0); cbn [orb]; [lia|].
    destruct (Z.gtb_spec (offset + size) byteLength); cbn [orb]; [lia|].
    assert (L : length (take (Z.to_nat size) (drop (Z.to_nat offset) data))
                = Z.to_nat size).
    { rewrite length_take, length_drop. unfold byteLength in *. lia. }
    split; [lia|]. split; [lia|]. split; [lia|]. split; [lia|].
    intros i Hi. rewrite L in Hi.
    etransitivity; [apply lookup_take_lt; lia|apply lookup_drop].
  - intros offset size1 size2 b1 b2.
    destruct (Z.ltb_spec offset 0); cbn [orb]; [discriminate|].
    destruct (Z.gtb_spec offset byteLength); cbn [orb]; [discriminate|].
    destruct (Z.ltb_spec size1 0); cbn [orb]; [discriminate|].
    destruct (Z.gtb_spec (offset + size1) byteLength); cbn [orb];
      [discriminate|].
    intros [= <-].
    destruct (Z.ltb_spec (offset + size1) 0); cbn [orb]; [discriminate|].
    destruct (Z.ltb_spec size2 0); cbn [orb]; [discriminate|].
    destruct (Z.gtb_spec (offset + size1 + size2) byteLength); cbn [orb];
      [discriminate|].
    intros [= <-].
    destruct (Z.ltb_spec (size1 + size2) 0); cbn [orb]; [lia|].
    destruct (Z.gtb_spec (offset + (size1 + size2)) byteLength); cbn [orb];
      [lia|].
    f_equal.
    replace (Z.to_nat (size1 + size2))
      with (Z.to_nat size1 + Z.to_nat size2)%nat by lia.
    replace (Z.to_nat (offset + size1))
      with (Z.to_nat offset + Z.to_nat size1)%nat by lia.
    now rewrite <- take_take_drop, drop_drop.
Qed.

(** X14. Over a [FileBackend] whose buffer is shorter than the header,
    [initialize] fails with the backend's rejection of the range after
    the single header request, whatever the codec, and the reader is as
    before -- uninitialized if it was. *)
Theorem initialize_rejects_short_file
    (wasm : WasmModule) (data : bytes) (w : World wasm) :
  Z.of_nat (length data) < om_header_size wasm ->
  exists msg,
    getBytes (FileBackend data) 0 (om_header_size wasm) = Rejected msg
    /\ initialize wasm (FileBackend data) w
       = (Thrown (BackendError msg),
          mkWorld (this w) (output w)
                  (calls w ++ [GetBytes 0 (om_header_size wasm)])).
Proof.
  intros Hshort. unfold initialize, await_getBytes, log, bind, FileBackend.
  cbn [getBytes].
  destruct (Z.ltb_spec 0 0); [lia|].
  destruct (Z.gtb_spec 0 (Z.of_nat (length data))); [lia|].
  cbn [orb].
  destruct (Z.ltb_spec (om_header_size wasm) 0); [now eexists|].
  cbn [orb].
  destruct (Z.gtb_spec (0 + om_header_size wasm) (Z.of_nat (length data)));
    [now eexists|lia].
Qed.

(** ** [FileBackend] over a [Uint8Array] source *)

(** X15. The [FileBackend] that slices a [Uint8Array] never rejects
    [getBytes]: it resolves with bytes of the buffer, and for an offset
    and a size that are not negative with exactly as many as the range
    has inside the buffer, so with fewer than [size] when the range
    leaves it. Wherever the bounds-checked [FileBackend] resolves, the
    two return the same bytes. Its [count] is the buffer's length, and
    throws for an empty buffer. *)
Theorem FileBackendUint8Array_slices (file : bytes) :
  let backend := FileBackendUint8Array file in
  let len := Z.of_nat (length file) in
  (forall offset size,
     exists b,
       getBytes backend offset size = Resolved b
       /\ Z.of_nat (length b) <= len
       /\ (0 <= offset -> 0 <= size ->
           Z.of_nat (length b) = Z.min size (Z.max (len - offset) 0)))
  /\ (forall offset size b,
        getBytes (FileBackend file) offset size = Resolved b ->
        getBytes backend offset size = Resolved b)
  /\ (file <> [] -> count backend = Resolved (Z.of_nat (length file)))
  /\ (file = [] -> exists msg, count backend = Rejected msg).
Proof.
  intros backend len. unfold backend, len, FileBackendUint8Array.
  cbn [getBytes count]. split; [|split; [|split]].
  - intros offset size. eexists. split; [reflexivity|].
    unfold slice. cbv zeta.
    rewrite length_take, length_drop.
    unfold relative_index.
    destruct (Z.ltb_spec offset 0), (Z.ltb_spec (offset + size) 0); lia.
  - intros offset size b. unfold FileBackend. cbn [getBytes].
    destruct (Z.ltb_spec offset 0); cbn [orb]; [discriminate|].
    destruct (Z.gtb_spec offset (Z.of_nat (length file))); cbn [orb];
      [discriminate|].
    destruct (Z.ltb_spec size 0); cbn [orb]; [discriminate|].
    destruct (Z.gtb_spec (offset + size) (Z.of_nat (length file)));
      cbn [orb]; [discriminate|].
    intros [= <-]. f_equal. unfold slice, relative_index. cbv zeta.
    destruct (Z.ltb_spec offset 0); [lia|].
    destruct (Z.ltb_spec (offset + size) 0); [lia|].
    rewrite !Z.min_l by lia. f_equal; lia.
  - intros Hne. destruct file; [congruence|]. reflexivity.
  - intros ->. eexists. reflexivity.
Qed.

(** ** [MemoryHttpBackend] *)

(** X19. Once the file is loaded, [MemoryHttpBackend.getBytes] resolves
    exactly when the offset is not negative and [offset + size] is
    within the data. For a size that is not negative it resolves when
    the bounds-checked [FileBackend] does, with the same bytes. A
    negative size is not rejected: it is answered with no bytes as long
    as [offset + size] is not negative. *)
Theorem MemoryHttpBackend_serves_loaded_data
    (fileSize : Z) (fileData : bytes) (offset size : Z) :
  let backend := MemoryHttpBackend fileSize fileData in
  ((exists b, getBytes backend offset size = Resolved b)
   <-> 0 <= offset /\ offset + size <= Z.of_nat (length fileData))
  /\ (0 <= size ->
      forall b,
        getBytes backend offset size = Resolved b
        <-> getBytes (FileBackend fileData) offset size = Resolved b)
  /\ (size < 0 -> 0 <= offset + size <= Z.of_nat (length fileData) ->
      getBytes backend offset size = Resolved []).
Proof.
  intros backend. unfold backend, MemoryHttpBackend, FileBackend.
  cbn [getBytes].
  destruct (Z.ltb_spec offset 0) as [Ho|Ho]; cbn [orb].
  { split; [|split].
    - split; [intros [b [=]]|lia].
    - intros _ b. split; discriminate.
    - lia. }
  destruct (Z.gtb_spec (offset + size) (Z.of_nat (length fileData)))
    as [He|He]; cbn [orb].
  { split; [|split].
    - split; [intros [b [=]]|lia].
    - intros Hs b.
      destruct (Z.gtb_spec offset (Z.of_nat (length fileData)));
        destruct (Z.ltb_spec size 0); cbn [orb]; split; discriminate.
    - lia. }
  split; [|split].
  - split; [lia|eauto].
  - intros Hs b.
    destruct (Z.gtb_spec offset (Z.of_nat (length fileData))); [lia|].
    destruct (Z.ltb_spec size 0); [lia|]. cbn [orb].
    assert (E : slice fileData offset (offset + size)
                = take (Z.to_nat size) (drop (Z.to_nat offset) fileData)).
    { unfold slice, relative_index. cbv zeta.
      destruct (Z.ltb_spec offset 0); [lia|].
      destruct (Z.ltb_spec (offset + size) 0); [lia|].
      rewrite !Z.min_l by lia. f_equal; lia. }
    rewrite E. reflexivity.
  - intros Hs Hb. f_equal. unfold slice, relative_index. cbv zeta.
    destruct (Z.ltb_spec offset 0); [lia|].
    destruct (Z.ltb_spec (offset + size) 0); [lia|].
    replace (Z.to_nat _) with 0%nat by lia. reflexivity.
Qed.

(** ** [S3Backend] *)

Lemma cached_bytes_empty : cached_bytes ∅ = 0.
Proof. apply map_fold_empty. Qed.

Lemma cached_bytes_insert key data (m : gmap string bytes) :
  m !! key = None ->
  cached_bytes (<[key := data]> m) = cached_bytes m + byteLength_of data.
Proof.
  intros H. unfold cached_bytes.
  rewrite map_fold_insert_L; [reflexivity| |exact H].
  intros. lia.
Qed.

Lemma cached_bytes_nonneg (m : gmap string bytes) : 0 <= cached_bytes m.
Proof.
  induction m as [|key data m H _ IH] using map_first_key_ind.
  - now rewrite cached_bytes_empty.
  - rewrite cached_bytes_insert by exact H. unfold byteLength_of. lia.
Qed.

(** Storing under a key that is taken replaces the bytes held there. *)
Lemma cached_bytes_replace key data (m : gmap string bytes) :
  cached_bytes (<[key := data]> m) <= cached_bytes m + byteLength_of data.
Proof.
  destruct (m !! key) as [old|] eqn:E.
  - rewrite <- (insert_delete_eq m key data).
    rewrite cached_bytes_insert by apply lookup_delete_eq.
    rewrite <- (insert_delete_id m key old E) at 2.
    rewrite (cached_bytes_insert key old) by apply lookup_delete_eq.
    unfold byteLength_of. lia.
  - rewrite cached_bytes_insert by exact E. lia.
Qed.

Lemma forEach_subtract_spec (m : gmap string bytes) size0 :
  forEach_subtract m size0 = size0 - cached_bytes m.
Proof.
  induction m as [|key data m H _ IH] using map_first_key_ind.
  - unfold forEach_subtract. rewrite map_fold_empty, cached_bytes_empty. lia.
  - rewrite cached_bytes_insert by exact H. unfold forEach_subtract in *.
    rewrite map_fold_insert_L; [rewrite IH; lia| |exact H].
    intros. lia.
Qed.

(** A store under a key that is free keeps the account exact. *)
Lemma cacheData_accounted key data b :
  accounted b -> cachedRanges b !! key = None ->
  accounted (cacheData key data b).
Proof.
  unfold accounted, cacheData. intros Hacc Hfresh.
  destruct (Z.gtb_spec (cacheSize b + byteLength_of data) (cacheMaxSize b));
    cbn [cacheSize cachedRanges cacheMaxSize].
  - rewrite forEach_subtract_spec, Hacc.
    rewrite cached_bytes_insert by apply lookup_empty.
    rewrite cached_bytes_empty. lia.
  - rewrite cached_bytes_insert by exact Hfresh. lia.
Qed.

(** Any store keeps the account from falling short, and leaves the
    cache within its limit or with the stored bytes alone. *)
Lemma cacheData_covered key data b :
  covered b ->
  covered (cacheData key data b)
  /\ (cachedRanges (cacheData key data b) = {[key := data]}
      \/ cached_bytes (cachedRanges (cacheData key data b))
         <= cacheMaxSize (cacheData key data b)).
Proof.
  unfold covered, cacheData. intros Hcov.
  destruct (Z.gtb_spec (cacheSize b + byteLength_of data) (cacheMaxSize b));
    cbn [cacheSize cachedRanges cacheMaxSize].
  - rewrite forEach_subtract_spec.
    rewrite cached_bytes_insert by apply lookup_empty.
    rewrite cached_bytes_empty. split; [lia|]. left. reflexivity.
  - pose proof (cached_bytes_replace key data (cachedRanges b)).
    split; [lia|]. right. lia.
Qed.

Lemma stretch_covered b b' : stretch b b' -> covered b -> covered b'.
Proof.
  intros [b0|response b0|offset size b0|offset size response b0|b0] Hcov.
  - unfold count_begin. now destruct (fileSize b0).
  - unfold count_resume. destruct response as [[n|]|msg]; [|exact Hcov..].
    now destruct (n =? 0).
  - unfold getBytes_begin. cbv zeta.
    now destruct (if cacheEnabled b0 then _ else _).
  - unfold getBytes_resume. destruct response as [[data|]|msg];
      [|exact Hcov..].
    cbn [snd]. destruct (cacheEnabled b0); [|exact Hcov].
    now apply cacheData_covered.
  - unfold covered, clearCache. cbn. now rewrite cached_bytes_empty.
Qed.

Lemma stretch_cache_disabled b b' :
  stretch b b' ->
  cacheEnabled b = false -> cachedRanges b = ∅ ->
  cacheEnabled b' = false /\ cachedRanges b' = ∅.
Proof.
  intros [b0|response b0|offset size b0|offset size response b0|b0] Hoff Hnone.
  - unfold count_begin. now destruct (fileSize b0).
  - unfold count_resume. destruct response as [[n|]|msg]; [|auto..].
    now destruct (n =? 0).
  - unfold getBytes_begin. cbv zeta. rewrite Hoff. auto.
  - unfold getBytes_resume. destruct response as [[data|]|msg]; [|auto..].
    cbn [snd]. rewrite Hoff. auto.
  - auto.
Qed.

Section WithClient.
Context (client : S3Client).

(** X16. While calls of [count], [getBytes] and [clearCache] overlap
    in any way, [cacheSize] never falls short of the bytes held in
    [cachedRanges], and so is never negative: it starts equal to them
    in a new backend, and every stretch of every call keeps it at least
    as large. It stays equal to them through a call of [getBytes] or
    [count] that nothing overlaps. Whenever a body is stored, the cache
    then holds at most [cacheMaxSize] bytes, or that body alone. With
    the cache disabled nothing is ever stored. *)
Theorem S3Backend_cache_is_accounted b0 b :
  covered b0 ->
  rtc stretch b0 b ->
  covered b
  /\ 0 <= cacheSize b
  /\ (cacheEnabled b0 = false -> cachedRanges b0 = ∅ -> cachedRanges b = ∅)
  /\ (forall offset size data,
        cacheEnabled b = true ->
        let b' :=
          snd (getBytes_resume offset size (Resolved (Some data)) b) in
        cachedRanges b' = {[rangeKey offset size := data]}
        \/ cached_bytes (cachedRanges b') <= cacheMaxSize b')
  /\ (forall offset size,
        rtc stretch b (snd (s3_getBytes client offset size b))
        /\ (accounted b ->
            accounted (snd (s3_getBytes client offset size b))))
  /\ (rtc stretch b (snd (s3_count client b))
      /\ (accounted b -> accounted (snd (s3_count client b))))
  /\ (forall cacheEnabled_ cacheMaxSize_,
        accounted (new_S3Backend cacheEnabled_ cacheMaxSize_)
        /\ covered (new_S3Backend cacheEnabled_ cacheMaxSize_)).
Proof.
  intros Hcov0 Hsteps.
  assert (Hcov : covered b).
  { induction Hsteps as [|x y z Hxy _ IH]; [exact Hcov0|].
    apply IH. exact (stretch_covered _ _ Hxy Hcov0). }
  split; [exact Hcov|].
  split; [pose proof (cached_bytes_nonneg (cachedRanges b));
          unfold covered in Hcov; lia|].
  split.
  { intros Hoff Hnone.
    assert (G : cacheEnabled b = false /\ cachedRanges b = ∅);
      [|exact (proj2 G)].
    clear Hcov Hcov0.
    induction Hsteps as [|x y z Hxy _ IH]; [auto|].
    destruct (stretch_cache_disabled _ _ Hxy Hoff Hnone). auto. }
  split.
  { intros offset size data Hon. cbv zeta. cbn [getBytes_resume snd].
    rewrite Hon. exact (proj2 (cacheData_covered _ data b Hcov)). }
  split; [|split].
  - intros offset size. unfold s3_getBytes.
    pose proof (getBytes_begins offset size b) as Hbegin.
    destruct (getBytes_begin offset size b) as [[hit|] b1] eqn:Eb;
      cbn [snd] in *.
    + split; [now apply rtc_once|].
      unfold getBytes_begin in Eb. cbv zeta in Eb.
      destruct (if cacheEnabled b then _ else _); [|discriminate].
      now injection Eb as _ <-.
    + pose proof (getBytes_resumes offset size
                    (getObject client (rangeHeader offset size)) b1)
        as Hresume.
      split; [eapply rtc_l; [exact Hbegin|now apply rtc_once]|].
      intros Hacc. unfold getBytes_begin in Eb. cbv zeta in Eb.
      destruct (cacheEnabled b) eqn:Hon.
      * destruct (cachedRanges b !! rangeKey offset size) eqn:Hk;
          [discriminate|].
        injection Eb as <-. unfold getBytes_resume.
        destruct (getObject client _) as [[data|]|msg]; [|exact Hacc..].
        cbn [snd cacheEnabled send]. rewrite Hon.
        apply cacheData_accounted; [exact Hacc|exact Hk].
      * injection Eb as <-. unfold getBytes_resume.
        destruct (getObject client _) as [[data|]|msg]; [|exact Hacc..].
        cbn [snd cacheEnabled send]. now rewrite Hon.
  - unfold s3_count.
    pose proof (count_begins b) as Hbegin.
    destruct (count_begin b) as [[n|] b1] eqn:Eb; cbn [snd] in *.
    + split; [now apply rtc_once|].
      unfold count_begin in Eb. destruct (fileSize b); [|discriminate].
      now injection Eb as _ <-.
    + pose proof (count_resumes (headObject client) b1) as Hresume.
      split; [eapply rtc_l; [exact Hbegin|now apply rtc_once]|].
      intros Hacc. unfold count_begin in Eb.
      destruct (fileSize b); [discriminate|]. injection Eb as <-.
      unfold count_resume.
      destruct (headObject client) as [[n|]|msg]; [|exact Hacc..].
      now destruct (n =? 0).
  - intros ce cm. unfold accounted, covered, new_S3Backend. cbn.
    rewrite cached_bytes_empty. split; [reflexivity|lia].
Qed.

(** X17. With the cache enabled, a resolved [getBytes] is remembered:
    asked again for the same offset and size, the backend answers with
    the same bytes without sending anything to S3 and without changing
    its state. With the cache disabled every [getBytes] sends a
    [GetObject] command for [bytes=offset-(offset+size-1)]. A resolved
    [count] is remembered in either case. *)
Theorem S3Backend_remembers b :
  (forall offset size data b1,
     cacheEnabled b = true ->
     s3_getBytes client offset size b = (Resolved data, b1) ->
     s3_getBytes client offset size b1 = (Resolved data, b1))
  /\ (forall offset size,
        cacheEnabled b = false ->
        sent (snd (s3_getBytes client offset size b))
        = sent b ++ [GetObjectCommand (rangeHeader offset size)])
  /\ (forall n b1,
        s3_count client b = (Resolved n, b1) ->
        s3_count client b1 = (Resolved n, b1)).
Proof.
  split; [|split].
  - intros offset size data b1 Hen.
    unfold s3_getBytes, getBytes_begin. cbv zeta. rewrite Hen.
    destruct (cachedRanges b !! rangeKey offset size) as [hit|] eqn:Hk.
    { intros [= <- <-]. now rewrite Hen, Hk. }
    unfold getBytes_resume.
    destruct (getObject client (rangeHeader offset size)) as [[d|]|msg];
      try discriminate.
    cbn [cacheEnabled send]. rewrite Hen. intros [= <- <-].
    assert (E : cacheEnabled (cacheData (rangeKey offset size) d
                  (send (GetObjectCommand (rangeHeader offset size)) b)) = true).
    { unfold cacheData. cbn. now destruct (_ >? _). }
    rewrite E.
    assert (L : cachedRanges (cacheData (rangeKey offset size) d
                  (send (GetObjectCommand (rangeHeader offset size)) b))
                !! rangeKey offset size = Some d).
    { unfold cacheData. cbn. destruct (_ >? _); cbn; apply lookup_insert_eq. }
    now rewrite L.
  - intros offset size Hen.
    unfold s3_getBytes, getBytes_begin, getBytes_resume. cbv zeta.
    rewrite Hen.
    destruct (getObject client (rangeHeader offset size)) as [[d|]|msg];
      cbn; now rewrite ?Hen.
  - intros n b1. unfold s3_count, count_begin, count_resume.
    destruct (fileSize b) as [m|] eqn:Hf.
    { intros [= <- <-]. now rewrite Hf. }
    destruct (headObject client) as [[m|]|msg]; try discriminate.
    destruct (m =? 0); [discriminate|].
    intros [= <- <-]. reflexivity.
Qed.

End WithClient.
End BackendFacts.

(** * The laws on the example files *)

Module LawScenarios.
Import Reader MiniCodec Examples ReaderFacts ReaderLaws Backends BackendFacts.

(** X1 on the 5x5 array "temp". *)
Lemma dimensions_are_the_codec_lists_witness :
  let w := world_of temp (new_array Uint8Array 0) in
  getDimensions wasm w = (Returned [5; 5], w)
  /\ om_variable_get_dimension_value wasm (variable_of temp) 2 = 0.
Proof.
  intros w.
  destruct (dimensions_are_the_codec_lists wasm w (variable_of temp))
    as (Hd & _ & Hz & _).
  - vm_compute. reflexivity.
  - split; [exact Hd|]. apply Hz. vm_compute. discriminate.
Defined.

(** X5 on the scalar "k", an Int8 with the payload byte 0xfe. *)
Lemma readScalar_integer_values_witness :
  let w := world_of k (new_array Uint8Array 0) in
  exists z,
    readScalar wasm DATA_TYPE_INT8 w = (Returned (Some (SInt z)), w)
    /\ -128 <= z < 128
    /\ z mod 256 = 254.
Proof.
  intros w.
  destruct (readScalar_integer_values wasm w (variable_of k) [Byte.xfe])
    as (_ & _ & _ & H & _).
  - vm_compute. reflexivity.
  - vm_compute. reflexivity.
  - destruct H as (z & E & Hb & Hm); [vm_compute; reflexivity|].
    exists z. split; [exact E|]. split; [exact Hb|exact Hm].
Defined.

(** X6 on the scalar "k", asked for as a string. *)
Lemma readScalar_other_types_are_null_witness :
  let w := world_of k (new_array Uint8Array 0) in
  readScalar wasm DATA_TYPE_STRING w = (Returned None, w).
Proof.
  intros w.
  apply (readScalar_other_types_are_null wasm w (variable_of k)).
  - vm_compute. reflexivity.
  - vm_compute. lia.
Defined.

(** X9 on the 5x5 array and the request [0:1] x [0:6]. *)
Lemma invalid_range_names_first_offender_witness :
  let w := world_of temp (new_array Uint8Array 125) in
  exists v d,
    variable (this w) = Some v
    /\ om_variable_get_dimensions wasm v !! 1%nat = Some d
    /\ 6 > d.
Proof.
  intros w.
  destruct (invalid_range_names_first_offender wasm tree_backend w 5
              DATA_TYPE_UINT8_ARRAY beyond ioSizeMax ioSizeMerge
              1%nat (mkRange 0 6))
    as (v & d & Hv & _ & Hd & Hbad & _).
  - vm_compute. reflexivity.
  - exists v, d. split; [exact Hv|]. split; [exact Hd|].
    cbn [start end_] in Hbad. lia.
Defined.

(** X10 on the 5x5 array, the request [0:2] x [0:2] and a buffer of
    four elements. *)
Lemma valid_request_reaches_the_decoder_witness :
  let w := world_of temp (new_array Uint8Array 4) in
  0 < totalElements corner
  /\ forall e,
       fst (readInto wasm tree_backend 5 DATA_TYPE_UINT8_ARRAY corner
                     ioSizeMax ioSizeMerge w) = Thrown e ->
       kind e = DecodeError \/ kind e = IOError.
Proof.
  intros w.
  apply (valid_request_reaches_the_decoder wasm tree_backend w
           (variable_of temp) 5 corner ioSizeMax ioSizeMerge).
  - vm_compute. reflexivity.
  - vm_compute om_variable_get_dimensions.
    repeat (constructor; [cbn [start end_]; lia|]). constructor.
  - vm_compute. discriminate.
Defined.

(** X11 on the 5x5 array and the request [0:2] x [0:2]. *)
Lemma read_result_shape_witness :
  let w := world_of temp (new_array Uint8Array 0) in
  exists v c,
    variable (this w) = Some v
    /\ om_variable_get_type wasm v = DATA_TYPE_UINT8_ARRAY
    /\ output_ctor DATA_TYPE_UINT8_ARRAY = Some c
    /\ ctor corner_values = c
    /\ 0 < totalElements corner
    /\ ta_length corner_values = Z.to_nat (totalElements corner)
    /\ Forall2 (fun r d => 0 <= start r /\ start r < end_ r /\ end_ r <= d)
               corner (om_variable_get_dimensions wasm v).
Proof.
  intros w.
  apply (read_result_shape wasm tree_backend engine w 5 DATA_TYPE_UINT8_ARRAY
           corner ioSizeMax ioSizeMerge corner_values
           (snd (read wasm tree_backend engine 5 DATA_TYPE_UINT8_ARRAY corner
                      ioSizeMax ioSizeMerge w))).
  vm_compute. reflexivity.
Defined.

(** X12 on the root of the example tree, which has three nodes below
    it. *)
Lemma walk_fetches_every_child_once_witness :
  let run :=
    collectVariableMetadata wasm tree_backend engine 5 [] empty_record
                            root_world in
  exists t,
    file_tree wasm tree_backend engine 5 (variable_of (this root_world))
              (offsetSize (this root_world)) = Some t
    /\ snd run
       = mkWorld (this root_world) (output root_world)
                 (calls root_world ++ walk_requests t)
    /\ length (walk_requests t) = 3%nat
    /\ ~ In Count (walk_requests t).
Proof.
  intros run.
  destruct (walk_fetches_every_child_once wasm tree_backend engine 5 []
              empty_record root_world
              (match fst run with Returned flat => flat | _ => empty_record end)
              (snd run))
    as (v & t & Hv & Ht & _ & Hw & _ & Hn & Hc).
  - vm_compute. reflexivity.
  - exists t.
    assert (E : v = variable_of (this root_world)).
    { assert (H : variable (this root_world)
                  = Some (variable_of (this root_world)))
        by (vm_compute; reflexivity).
      rewrite H in Hv. now injection Hv. }
    subst v. split; [exact Ht|]. split; [exact Hw|]. split; [|exact Hc].
    rewrite Hn.
    assert (E : file_tree wasm tree_backend engine 5
                  (variable_of (this root_world))
                  (offsetSize (this root_world))
                = Some
                    (Node (Some "root"%string) (Some (mkOffsetSize 85 18))
                       [Node (Some "temp"%string) (Some (mkOffsetSize 43 18)) [];
                        Node None (Some (mkOffsetSize 73 12))
                          [Node (Some "k"%string)
                                (Some (mkOffsetSize 61 12)) []]]))
      by (vm_compute; reflexivity).
    rewrite E in Ht. injection Ht as <-. reflexivity.
Defined.

(** X18 on the scalar "k", which has no children, and on the variable
    of [proto_file]. *)
Lemma flat_metadata_without_children_witness :
  let w := world_of k (new_array Uint8Array 0) in
  getFlatVariableMetadata wasm tree_backend engine 1 w
  = (Returned (mkJsRecord {["k"%string := mkOffsetSize 61 12]} None), w)
  /\ getFlatVariableMetadata wasm proto_backend engine 1 proto_world
     = (Returned (mkJsRecord ∅ (Some (mkOffsetSize 16 19))), proto_world).
Proof.
  intros w. split.
  - destruct (flat_metadata_without_children wasm tree_backend engine w 0)
      as [_ H].
    apply (H (variable_of k)).
    + vm_compute. reflexivity.
    + vm_compute. discriminate.
  - destruct (flat_metadata_without_children wasm proto_backend engine
                proto_world 0) as [_ H].
    apply (H (variable_of (this proto_world))).
    + vm_compute. reflexivity.
    + vm_compute. discriminate.
Defined.

(** X13 on the bytes 0..9: the ranges 2..3 and 4..6 make the range 2..6. *)
Lemma FileBackend_serves_exact_ranges_witness :
  getBytes (FileBackend ten_bytes) 2 5
  = Resolved (map B [2; 3] ++ map B [4; 5; 6]).
Proof.
  pose proof (FileBackend_serves_exact_ranges ten_bytes) as H.
  cbv zeta in H. destruct H as (_ & _ & H).
  apply (H 2 2 3); vm_compute; reflexivity.
Defined.

(** X14 on the file of ten bytes, shorter than the header of sixteen. *)
Lemma initialize_rejects_short_file_witness :
  exists msg,
    getBytes (FileBackend short_file) 0 (om_header_size wasm) = Rejected msg
    /\ initialize wasm (FileBackend short_file) fresh
       = (Thrown (BackendError msg),
          mkWorld (this fresh) (output fresh)
                  (calls fresh ++ [GetBytes 0 (om_header_size wasm)])).
Proof.
  apply (initialize_rejects_short_file wasm short_file fresh).
  vm_compute. reflexivity.
Defined.

(** X15 on the bytes 0..9: five bytes asked for at offset 8 give two. *)
Lemma FileBackendUint8Array_slices_witness :
  count (FileBackendUint8Array ten_bytes) = Resolved 10
  /\ exists b,
       getBytes (FileBackendUint8Array ten_bytes) 8 5 = Resolved b
       /\ Z.of_nat (length b) = 2.
Proof.
  pose proof (FileBackendUint8Array_slices ten_bytes) as H.
  cbv zeta in H. destruct H as (H1 & _ & H3 & _). split.
  - apply H3. discriminate.
  - destruct (H1 8 5) as (b & E & _ & L). exists b. split; [exact E|].
    rewrite L; [vm_compute; reflexivity|lia|lia].
Defined.

(** X19 on the bytes 0..9: a range inside the data, and a negative
    size. *)
Lemma MemoryHttpBackend_serves_loaded_data_witness :
  getBytes (MemoryHttpBackend 10 ten_bytes) 2 5
  = Resolved (map B [2; 3; 4; 5; 6])
  /\ getBytes (MemoryHttpBackend 10 ten_bytes) 4 (-2) = Resolved [].
Proof.
  split.
  - pose proof (MemoryHttpBackend_serves_loaded_data 10 ten_bytes 2 5) as H.
    cbv zeta in H. destruct H as (_ & H & _).
    apply H; [lia|]. vm_compute. reflexivity.
  - pose proof (MemoryHttpBackend_serves_loaded_data 10 ten_bytes 4 (-2))
      as H.
    cbv zeta in H. destruct H as (_ & _ & H).
    apply H; [lia|]. vm_compute. split; discriminate.
Defined.

(** X16 on two requests for one range that overlap: both are sent,
    then both bodies are stored under the one key, and [cacheSize]
    counts the ten bytes twice. And on a backend with a cache of 15
    bytes and two requests one after the other, the second of which
    empties the cache first. *)
Lemma S3Backend_cache_is_accounted_witness :
  let b1 := snd (s3_getBytes whole_object 0 10 small_cache) in
  let b2 := snd (s3_getBytes whole_object 10 10 b1) in
  (cacheSize both_stored = 20
   /\ cached_bytes (cachedRanges both_stored) = 10
   /\ covered both_stored)
  /\ accounted b1 /\ accounted b2.
Proof.
  intros b1 b2. split.
  - split; [vm_compute; reflexivity|]. split; [vm_compute; reflexivity|].
    destruct (S3Backend_cache_is_accounted whole_object roomy_cache
                both_stored) as (H & _).
    + vm_compute. discriminate.
    + unfold both_stored, both_sent.
      eapply rtc_l; [apply (getBytes_begins 0 10)|].
      eapply rtc_l; [apply (getBytes_begins 0 10)|].
      eapply rtc_l;
        [apply (getBytes_resumes 0 10 (Resolved (Some ten_bytes)))|].
      eapply rtc_l;
        [apply (getBytes_resumes 0 10 (Resolved (Some ten_bytes)))|].
      apply rtc_refl.
    + exact H.
  - destruct (S3Backend_cache_is_accounted whole_object small_cache
                small_cache) as (_ & _ & _ & _ & H & _).
    + vm_compute. discriminate.
    + apply rtc_refl.
    + destruct (H 0 10) as [Hs1 H1].
      assert (A1 : accounted b1) by (apply H1; vm_compute; reflexivity).
      split; [exact A1|].
      destruct (S3Backend_cache_is_accounted whole_object small_cache b1)
        as (_ & _ & _ & _ & H' & _).
      * vm_compute. discriminate.
      * exact Hs1.
      * destruct (H' 10 10) as [_ H2]. exact (H2 A1).
Defined.

(** X17 on the same backend: the second request for the same range is
    served from the cache. *)
Lemma S3Backend_remembers_witness :
  let b1 := snd (s3_getBytes whole_object 0 10 small_cache) in
  s3_getBytes whole_object 0 10 b1 = (Resolved ten_bytes, b1).
Proof.
  intros b1.
  destruct (S3Backend_remembers whole_object small_cache) as (H & _).
  apply (H 0 10 ten_bytes b1).
  - vm_compute. reflexivity.
  - vm_compute. reflexivity.
Defined.

End LawScenarios.
